(** * movie-search: the crawl-and-match pipeline of [src/index.ts]

    A shallow embedding of [uniqueLinks], [extractLinks], [detectMaxPages],
    [fetchPage] and [searchMovieLinks], and the properties the specification
    states about them.

    JavaScript strings are modelled as [string]; every character stands for
    one code unit in the range U+0000..U+00FF.  Numbers that the program only
    uses as integers (years, page numbers, [maxResults]) are modelled as [Z]. *)

From Stdlib Require Import ZArith Ascii String List Bool Lia DecimalString.
From Stdlib Require DecimalPos.
From stdpp Require Import base option list gmap strings.

Open Scope string_scope.
Open Scope Z_scope.
Open Scope list_scope.

(** ** JavaScript string primitives *)

Module JsString.

(** Code unit of a character. *)
Definition code (c : ascii) : N := N_of_ascii c.

(** [\s] in a regular expression and the characters removed by [trim]:
    TAB, LF, VT, FF, CR, SPACE and NO-BREAK SPACE are the ones below
    U+0100. *)
Definition isSpace (c : ascii) : bool :=
  let n := code c in
  ((9 <=? n) && (n <=? 13) || (n =? 32) || (n =? 160))%N.

(** [toLowerCase] on one code unit: A..Z, and the capital letters of the
    Latin-1 supplement (U+00C0..U+00DE without the multiplication sign). *)
Definition lowerChar (c : ascii) : ascii :=
  let n := code c in
  if ((65 <=? n) && (n <=? 90)
      || (192 <=? n) && (n <=? 222) && negb (n =? 215))%N
  then ascii_of_N (n + 32) else c.

Fixpoint toLowerCase (s : string) : string :=
  match s with
  | EmptyString => EmptyString
  | String c s' => String (lowerChar c) (toLowerCase s')
  end.

Definition isEmpty (s : string) : bool :=
  match s with EmptyString => true | String _ _ => false end.

Fixpoint trimStart (s : string) : string :=
  match s with
  | EmptyString => EmptyString
  | String c s' => if isSpace c then trimStart s' else s
  end.

Fixpoint trimEnd (s : string) : string :=
  match s with
  | EmptyString => EmptyString
  | String c s' =>
      let r := trimEnd s' in
      if isSpace c && isEmpty r then EmptyString else String c r
  end.

Definition trim (s : string) : string := trimEnd (trimStart s).

(** [s.startsWith(p)] *)
Fixpoint startsWith (s p : string) : bool :=
  match p with
  | EmptyString => true
  | String b p' =>
      match s with
      | EmptyString => false
      | String a s' => if Ascii.eqb a b then startsWith s' p' else false
      end
  end.

(** [s.includes(w)] *)
Fixpoint includes (s w : string) : bool :=
  startsWith s w ||
  match s with
  | EmptyString => false
  | String _ s' => includes s' w
  end.

(** [s.split(/\s+/)]: [cur] is the piece being read, [inSep] says that the
    scan is inside a run of white space. *)
Fixpoint splitGo (inSep : bool) (cur : string) (s : string) : list string :=
  match s with
  | EmptyString => [cur]
  | String c s' =>
      if isSpace c
      then if inSep then splitGo true cur s'
           else cur :: splitGo true EmptyString s'
      else splitGo false (cur +:+ String c EmptyString) s'
  end.

Definition splitWs (s : string) : list string := splitGo false EmptyString s.

(** [`${n}`] for an integer [n] below 10^21 in absolute value (from there on
    the template gives the exponent notation); the program formats years and
    page numbers up to 50. *)
Definition ofZ (n : Z) : string := NilZero.string_of_int (Z.to_int n).

End JsString.

Import JsString.

(** ** Data model *)

(** [type LinkResult = { title: string; url: string }] *)
Record LinkResult := mkLink { title : string; url : string }.

(** One element selected by cheerio: [$(element).attr("href")], which is
    [undefined] when the attribute is absent, and [$(element).text()]. *)
Record Anchor := mkAnchor { a_href : option string; a_text : string }.

(** What the program takes from its libraries and from the platform: the
    cheerio selections of a parsed document and the WHATWG [URL] class. *)
Class Platform := {
  (** [load(html)] followed by [$("div.f a")], in document order *)
  select_listing_anchors : string -> list Anchor;
  (** [load(html)] followed by [$("a")], in document order *)
  select_anchors : string -> list Anchor;
  (** [new URL(href, baseUrl).toString()]; [None] when the constructor throws *)
  url_resolve : string -> string -> option string;
  (** [new URL(u).origin]; [None] when the constructor throws *)
  url_origin : string -> option string
}.

(** ** [uniqueLinks] *)

(** One turn of the loop: [seen] is the [Set] of urls, [result] the array. *)
Definition uniqueStep (st : gset string * list LinkResult) (link : LinkResult)
  : gset string * list LinkResult :=
  let key := url link in
  if decide (key ∈ st.1) then st else ({[ key ]} ∪ st.1, st.2 ++ [link]).

Definition uniqueLinks (links : list LinkResult) : list LinkResult :=
  (fold_left uniqueStep links (∅, [])).2.

(** ** [normalizeUrl] and [extractLinks] *)

Section Extractor.
Context {P : Platform}.

Definition normalizeUrl (baseUrl href : string) : option string :=
  url_resolve href baseUrl.

(** [queryWords.every(w => hay.includes(w))] *)
Definition everyWordIn (queryWords : list string) (hay : string) : bool :=
  forallb (fun w => includes hay w) queryWords.

(** The callback of [$("div.f a").each]: [Some link] when it pushes [link]
    onto [links], [None] when it returns without pushing. *)
Definition anchorLink (baseUrl baseOrigin : string) (queryWords : list string)
    (element : Anchor) : option LinkResult :=
  match a_href element with
  | None => None
  | Some href =>
      let text := trim (a_text element) in
      if isEmpty href || isEmpty text then None else
      match normalizeUrl baseUrl href with
      | None => None
      | Some url =>
          if isEmpty url then None else
          let lowerUrl := toLowerCase url in
          if negb (startsWith lowerUrl baseOrigin) then None else
          if includes lowerUrl "-movies/" then None else
          if negb (includes lowerUrl "-movie/") && negb (includes lowerUrl "-series/")
          then None else
          let lowerText := toLowerCase text in
          let matchText := everyWordIn queryWords lowerText in
          let matchUrl := everyWordIn queryWords lowerUrl in
          if matchText || matchUrl then Some (mkLink text url) else None
      end
  end.

(** [queryWords] of [extractLinks]. *)
Definition queryWordsOf (query : string) : list string :=
  let normalizedQuery := trim (toLowerCase query) in
  splitWs normalizedQuery.

(** The array [links] when the [each] loop has ended. *)
Definition pushedLinks (html baseUrl baseOrigin query : string) : list LinkResult :=
  omap (anchorLink baseUrl baseOrigin (queryWordsOf query))
       (select_listing_anchors html).

(** [extractLinks(html, baseUrl, query)]; [None] when [new URL(baseUrl)]
    throws. *)
Definition extractLinks (html baseUrl query : string) : option (list LinkResult) :=
  match url_origin baseUrl with
  | None => None
  | Some origin =>
      let baseOrigin := toLowerCase origin in
      Some (uniqueLinks (pushedLinks html baseUrl baseOrigin query))
  end.

(** The filters before the match step (the checks on [href], [text], the
    resolved url, its origin and its slug shape): the candidate link of an
    anchor that passes all of them. *)
Definition anchorCandidate (baseUrl baseOrigin : string) (element : Anchor)
  : option LinkResult :=
  match a_href element with
  | None => None
  | Some href =>
      let text := trim (a_text element) in
      if isEmpty href || isEmpty text then None else
      match normalizeUrl baseUrl href with
      | None => None
      | Some url =>
          if isEmpty url then None else
          let lowerUrl := toLowerCase url in
          if negb (startsWith lowerUrl baseOrigin) then None else
          if includes lowerUrl "-movies/" then None else
          if negb (includes lowerUrl "-movie/") && negb (includes lowerUrl "-series/")
          then None else Some (mkLink text url)
      end
  end.

(** The match step on a candidate: [matchText || matchUrl]. *)
Definition matchesQuery (queryWords : list string) (c : LinkResult) : bool :=
  everyWordIn queryWords (toLowerCase (title c))
  || everyWordIn queryWords (toLowerCase (url c)).

End Extractor.

(** ** [detectMaxPages] *)

Module PageParam.

Definition isDigit (c : ascii) : bool :=
  ((48 <=? code c) && (code c <=? 57))%N.

(** The longest run of digits at the start of [s]: the group [(\d+)]. *)
Fixpoint takeDigits (s : string) : string :=
  match s with
  | EmptyString => EmptyString
  | String c s' => if isDigit c then String c (takeDigits s') else EmptyString
  end.

Fixpoint dropChars (n : nat) (s : string) : string :=
  match n, s with
  | S n', String _ s' => dropChars n' s'
  | _, _ => s
  end.

(** [parseInt(digits, 10)] on a string of digits; the value is exact here,
    a JavaScript number rounds it from 2^53 on. *)
Definition parseInt10 (digits : string) : Z :=
  fold_left (fun n c => 10 * n + Z.of_N (code c - 48))
            (list_ascii_of_string digits) 0.

(** [href.match(/[?&]page=(\d+)/)]: the group of the leftmost match. *)
Fixpoint matchQuery (href : string) : option string :=
  match href with
  | EmptyString => None
  | String c rest =>
      let digits := takeDigits (dropChars 5 rest) in
      if (Ascii.eqb c "?" || Ascii.eqb c "&")
         && startsWith rest "page=" && negb (isEmpty digits)
      then Some digits
      else matchQuery rest
  end.

End PageParam.

Definition detectMaxPages {P : Platform} (html : string) : Z :=
  fold_left
    (fun maxPage el =>
       match a_href el with
       | None => maxPage
       | Some href =>
           if isEmpty href then maxPage else
           match PageParam.matchQuery href with
           | Some digits =>
               let p := PageParam.parseInt10 digits in
               if maxPage <? p then p else maxPage
           | None => maxPage
           end
       end)
    (select_anchors html) 1.

(** ** Effects of the orchestrator *)

(** What [searchMovieLinks] does besides computing its result: the GET
    requests it issues and the runs of the pagination detector. *)
Inductive Event :=
| EvFetch (url : string)
| EvDetectMaxPages (html : string).

(** A computation that logs its events and either returns a value or throws
    (the promise of the [async] function rejects). *)
Definition Crawl (A : Type) : Type := (option A * list Event)%type.

Definition ret {A} (a : A) : Crawl A := (Some a, []).

Definition bind {A B} (m : Crawl A) (k : A -> Crawl B) : Crawl B :=
  match m.1 with
  | Some a => ((k a).1, m.2 ++ (k a).2)
  | None => (None, m.2)
  end.

Definition emit (e : Event) : Crawl unit := (Some tt, [e]).

(** A value or an exception, without events. *)
Definition orThrow {A} (o : option A) : Crawl A := (o, []).

Notation "'let*' x ':=' m 'in' k" := (bind m (fun x => k))
  (at level 10, x name, m at level 100, k at level 200).

Fixpoint foldM {A B} (f : A -> B -> Crawl A) (a : A) (l : list B) : Crawl A :=
  match l with
  | [] => ret a
  | b :: l' => let* a' := f a b in foldM f a' l'
  end.

(** ** [Promise.all] *)

Section PromiseAll.
Context {A : Type}.

(** The promises of a batch settle one at a time, in an order the program
    does not control: at each step [pick] chooses which of the pending ones
    settles.  A promise is given by its index in the input array and its
    outcome ([None]: it rejects).  A fulfilled promise stores its value at
    its own index of [values]; a rejected one rejects the whole. *)
Fixpoint settle (pick : nat -> nat) (step n : nat)
    (pending : list (nat * option A)) (values : list (option A))
  : option (list (option A)) :=
  match n with
  | O => Some values
  | S n' =>
      let j := Nat.modulo (pick step) (length pending) in
      match pending !! j with
      | None => Some values
      | Some (_, None) => None
      | Some (index, Some v) =>
          settle pick (S step) n' (delete j pending) (<[index := Some v]> values)
      end
  end.

(** [await Promise.all(promises)]: the array of values once every promise
    has settled, [None] when the await throws. *)
Definition promiseAll (pick : nat -> nat) (promises : list (option A))
  : option (list A) :=
  match settle pick 0 (length promises) (imap pair promises)
               (replicate (length promises) None) with
  | None => None
  | Some values => mapM id values
  end.

End PromiseAll.

(** ** [fetchPage] and [searchMovieLinks] *)

(** The part of a [Response] the program reads: [response.ok] and the text
    of the body. *)
Record Response := mkResponse { ok : bool; body : string }.

(** [z.infer<typeof SearchInput>] *)
Record SearchParams := mkParams {
  baseUrl : string;
  query : string;
  maxResults : option Z
}.

Definition MAX_PAGES_ABSOLUTE_LIMIT : Z := 50.
Definition YEAR_RANGE : nat := 7.
Definition BATCH_SIZE : nat := 10.

(** The loop that fills [yearsToScan], from [new Date().getFullYear()]. *)
Definition yearsToScan (currentYear : Z) : list Z :=
  fold_left (fun years i => years ++ [currentYear - Z.of_nat i])
            (seq 0 YEAR_RANGE) [currentYear + 1].

(** [arr.slice(0, end)] for an integer [end]. *)
Definition slice0 {A} (arr : list A) (end_ : Z) : list A :=
  let len := Z.of_nat (length arr) in
  let final := if end_ <? 0 then Z.max (len + end_) 0 else Z.min end_ len in
  take (Z.to_nat final) arr.

(** Which pending request of a batch completes next: the batch is named by
    its year and its start index [i] in [pageUrls]. *)
Definition Scheduler : Type := Z -> nat -> nat -> nat.

Section Orchestrator.
Context {P : Platform}.

(** The network: what [fetchWithTimeout(url, timeoutMs)] followed by
    [response.text()] gives for a url; [None] when the promise rejects
    (transport failure, or the abort at the timeout). *)
Variable network : string -> option Response.

Variable sched : Scheduler.

(** [fetchPage(url)], without its event: the outer [None] is a rejected
    promise, the inner one the value [null]. *)
Definition fetchPage (url : string) : option (option string) :=
  match network url with
  | None => None
  | Some response =>
      if negb (ok response) then Some None else
      let text := body response in
      if isEmpty text || (String.length text <? 200)%nat then Some None
      else Some (Some text)
  end.

(** [fetchPage(url).catch(() => null)] *)
Definition fetchPageOrNull (url : string) : option string :=
  match fetchPage url with
  | None => None
  | Some r => r
  end.

(** [`${baseUrl}/tamil-${year}-movies/`] *)
Definition page1UrlOf (baseUrl : string) (year : Z) : string :=
  baseUrl +:+ "/tamil-" +:+ ofZ year +:+ "-movies/".

(** [`${baseUrl}/tamil-${year}-movies/?page=${p}`] *)
Definition pageUrlOf (baseUrl : string) (year p : Z) : string :=
  baseUrl +:+ "/tamil-" +:+ ofZ year +:+ "-movies/?page=" +:+ ofZ p.

(** The values of [p] in [for (let p = 2; p <= maxPages; p++)]. *)
Definition pageNumbers (maxPages : Z) : list Z :=
  map (fun k => 2 + Z.of_nat k) (seq 0 (Z.to_nat (maxPages - 1))).

(** The callback of [batch.map], once its fetch has completed: the links of
    the page, or [None] when the callback throws. *)
Definition pageLinks (baseUrl query url : string) : option (list LinkResult) :=
  match fetchPageOrNull url with
  | None => Some []
  | Some h => extractLinks h baseUrl query
  end.

(** One batch: [batch.map] issues every fetch of the batch, then the
    program awaits [Promise.all]. *)
Definition fetchBatch (baseUrl query : string) (year : Z) (i : nat)
    (batch : list string) : Crawl (list (list LinkResult)) :=
  (promiseAll (sched year i) (map (pageLinks baseUrl query) batch),
   map EvFetch batch).

(** [for (let i = 0; i < pageUrls.length; i += BATCH_SIZE)], at most [fuel]
    turns. *)
Fixpoint batchLoop (fuel : nat) (baseUrl query : string) (year : Z)
    (pageUrls : list string) (i : nat) (allLinks : list LinkResult)
  : Crawl (list LinkResult) :=
  match fuel with
  | O => ret allLinks
  | S fuel' =>
      if (i <? length pageUrls)%nat then
        let batch := take BATCH_SIZE (drop i pageUrls) in
        let* results := fetchBatch baseUrl query year i batch in
        batchLoop fuel' baseUrl query year pageUrls (i + BATCH_SIZE)
                  (fold_left (fun acc l => acc ++ l) results allLinks)
      else ret allLinks
  end.

(** The body of [for (const year of yearsToScan)]: from [allLinks] before
    the turn to [allLinks] after it. *)
Definition scanYear (baseUrl query : string) (allLinks : list LinkResult)
    (year : Z) : Crawl (list LinkResult) :=
  let page1Url := page1UrlOf baseUrl year in
  let* _ := emit (EvFetch page1Url) in
  match fetchPageOrNull page1Url with
  | None => ret allLinks
  | Some html1 =>
      let* links1 := orThrow (extractLinks html1 baseUrl query) in
      let allLinks := allLinks ++ links1 in
      let* _ := emit (EvDetectMaxPages html1) in
      let maxPages := detectMaxPages html1 in
      let maxPages :=
        if MAX_PAGES_ABSOLUTE_LIMIT <? maxPages
        then MAX_PAGES_ABSOLUTE_LIMIT else maxPages in
      if 1 <? maxPages then
        let pageUrls := map (pageUrlOf baseUrl year) (pageNumbers maxPages) in
        batchLoop (length pageUrls) baseUrl query year pageUrls 0 allLinks
      else ret allLinks
  end.

(** [searchMovieLinks(params)] when [new Date().getFullYear()] is
    [currentYear]. *)
Definition searchMovieLinks (currentYear : Z) (params : SearchParams)
  : Crawl (list LinkResult) :=
  let baseUrl := baseUrl params in
  let query := trim (query params) in
  let maxResults := default 10 (maxResults params) in
  let* allLinks := foldM (scanYear baseUrl query) [] (yearsToScan currentYear) in
  let allLinks := uniqueLinks allLinks in
  ret (slice0 allLinks maxResults).

(** The schema [SearchInput]: [baseUrl] is a string the [URL] constructor
    accepts, [query] has at least one character, [maxResults] is absent or
    an integer from 1 to 50. *)
Definition SearchInput (params : SearchParams) : bool :=
  bool_decide (is_Some (url_origin (baseUrl params)))
  && (1 <=? String.length (query params))%nat
  && match maxResults params with
     | None => true
     | Some m => (1 <=? m) && (m <=? 50)
     end.

End Orchestrator.


(** ** Auxiliary definitions of the proofs *)

(** [uniqueLinks] as a recursion on the input, [seen] being the urls kept
    so far. *)
Fixpoint keepFresh (seen : gset string) (links : list LinkResult) : list LinkResult :=
  match links with
  | [] => []
  | link :: rest =>
      if decide (url link ∈ seen) then keepFresh seen rest
      else link :: keepFresh ({[ url link ]} ∪ seen) rest
  end.

(** The test [link.url === u]. *)
Definition hasUrl (u : string) (l : LinkResult) : bool := String.eqb (url l) u.


(** An anchor passes the filters that come before the match step, and [c] is
    the link it stands for: it has a non-empty [href] and a non-empty
    trimmed text, the [href] resolves against the base url, and the
    lowercased resolved url starts with the base origin, does not contain
    ["-movies/"] and contains ["-movie/"] or ["-series/"]. *)
Definition passesFilters {P : Platform} (baseUrl baseOrigin : string)
    (element : Anchor) (c : LinkResult) : Prop :=
  ∃ href,
    a_href element = Some href
    ∧ isEmpty href = false
    ∧ title c = trim (a_text element)
    ∧ isEmpty (title c) = false
    ∧ normalizeUrl baseUrl href = Some (url c)
    ∧ startsWith (toLowerCase (url c)) baseOrigin = true
    ∧ includes (toLowerCase (url c)) "-movies/" = false
    ∧ (includes (toLowerCase (url c)) "-movie/" = true
       ∨ includes (toLowerCase (url c)) "-series/" = true).

(** The number of GET requests in a log. *)
Definition isFetch (e : Event) : bool :=
  match e with EvFetch _ => true | EvDetectMaxPages _ => false end.

Definition isDetect (e : Event) : bool :=
  match e with EvFetch _ => false | EvDetectMaxPages _ => true end.

Definition fetchCount (log : list Event) : nat := length (filter isFetch log).

(** The links of one page after the first, when [new URL(baseUrl)] gives
    [origin]: none when the fetch is unusable or fails. *)
Definition plannedPageLinks {P : Platform} (network : string -> option Response)
    (baseUrl origin query url : string) : list LinkResult :=
  match fetchPageOrNull network url with
  | None => []
  | Some h => uniqueLinks (pushedLinks h baseUrl (toLowerCase origin) query)
  end.

(** The first listing page of a year is unusable or in error: the request
    fails in transport, or the status is not a success, or the body is empty
    or shorter than 200 characters. *)
Definition firstPageUnusable (network : string -> option Response) (url : string)
  : Prop :=
  network url = None
  ∨ ∃ response, network url = Some response
      ∧ (ok response = false
         ∨ body response = ""
         ∨ (String.length (body response) < 200)%nat).

(** The planner as the specification words it: the year after the current
    one, the current year, then each of the [lookbackYears] years before
    it. *)
Definition plan_spec (lookbackYears : nat) (currentYear : Z) : list Z :=
  (currentYear + 1) :: currentYear
  :: map (fun k => currentYear - Z.of_nat k) (seq 1 lookbackYears).

(** The urls of the pages of a year after the first, when the detector
    reports [detected] pages. *)
Definition plannedPageUrls (baseUrl : string) (year detected : Z) : list string :=
  map (pageUrlOf baseUrl year) (pageNumbers (Z.min detected MAX_PAGES_ABSOLUTE_LIMIT)).

(** ** A site for the examples *)

(** A small site and a platform for it.  The urls of the examples are made
    of a scheme (http or https), a host name and a path, or are paths from
    the root; on these [origin] and [resolve] are what the [URL] class
    gives.  Any other string is refused. *)
Module Fixture.

Fixpoint hostOf (s : string) : string :=
  match s with
  | EmptyString => EmptyString
  | String c s' => if Ascii.eqb c "/" then EmptyString else String c (hostOf s')
  end.

Fixpoint pathOf (s : string) : string :=
  match s with
  | EmptyString => EmptyString
  | String c s' => if Ascii.eqb c "/" then s else pathOf s'
  end.

Definition isHostChar (c : ascii) : bool :=
  let n := code (lowerChar c) in
  ((97 <=? n) && (n <=? 122) || (48 <=? n) && (n <=? 57)
   || (n =? 45) || (n =? 46))%N.

Definition isHostName (h : string) : bool :=
  negb (isEmpty h) && forallb isHostChar (list_ascii_of_string h).

Definition splitScheme (u : string) : option (string * string) :=
  if startsWith (toLowerCase u) "https://"
  then Some ("https://", PageParam.dropChars 8 u)
  else if startsWith (toLowerCase u) "http://"
  then Some ("http://", PageParam.dropChars 7 u)
  else None.

Definition origin (u : string) : option string :=
  match splitScheme u with
  | Some (scheme, rest) =>
      if isHostName (hostOf rest)
      then Some (scheme +:+ toLowerCase (hostOf rest)) else None
  | None => None
  end.

Definition resolve (href base : string) : option string :=
  match splitScheme href with
  | Some (scheme, rest) =>
      if isHostName (hostOf rest)
      then Some (scheme +:+ toLowerCase (hostOf rest)
                 +:+ (if isEmpty (pathOf rest) then "/" else pathOf rest))
      else None
  | None =>
      if startsWith href "/" && negb (startsWith href "//")
      then match origin base with
           | Some o => Some (o +:+ href)
           | None => None
           end
      else None
  end.

Definition site : string := "https://example.com".

(** First listing page of 2025: four entries and a pagination bar. *)
Definition page2025 : string :=
  "<html><body><h1>Tamil 2025 Movies</h1>"
  +:+ "<div class='f'><a href='/dhandoraa-2025-tamil-movie/'>Dhandoraa 2025 Movie</a></div>"
  +:+ "<div class='f'><a href='/tamil-2025-movies/'>Tamil 2025 Movies</a></div>"
  +:+ "<div class='f'><a href='https://example.com.evil.net/dhandoraa-2025-tamil-movie/'>Dhandoraa HD</a></div>"
  +:+ "<div class='f'><a href='/alappuzha-gymkhana-2025-tamil-movie/'> Alappuzha Gymkhana (2025) HD </a></div>"
  +:+ "<div class='pages'><a href='?page=2'>2</a><a href='?page=9999'>Last</a></div>"
  +:+ "</body></html>".

Definition listing2025 : list Anchor :=
  [ mkAnchor (Some "/dhandoraa-2025-tamil-movie/") "Dhandoraa 2025 Movie";
    mkAnchor (Some "/tamil-2025-movies/") "Tamil 2025 Movies";
    mkAnchor (Some "https://example.com.evil.net/dhandoraa-2025-tamil-movie/")
             "Dhandoraa HD";
    mkAnchor (Some "/alappuzha-gymkhana-2025-tamil-movie/")
             " Alappuzha Gymkhana (2025) HD " ].

Definition pages2025 : list Anchor :=
  [ mkAnchor (Some "?page=2") "2"; mkAnchor (Some "?page=9999") "Last" ].

(** Second listing page of 2025: an entry of the first page again, with
    another title, and a web series. *)
Definition page2025b : string :=
  "<html><body><h1>Tamil 2025 Movies - Page 2</h1>"
  +:+ "<div class='f'><a href='/dhandoraa-2025-tamil-movie/'>DHANDORAA (2025)</a></div>"
  +:+ "<div class='f'><a href='/dhandoraa-returns-tamil-web-series/'>Dhandoraa Returns</a></div>"
  +:+ "<div class='pages'><a href='?page=1'>1</a></div>"
  +:+ "</body></html>".

Definition listing2025b : list Anchor :=
  [ mkAnchor (Some "/dhandoraa-2025-tamil-movie/") "DHANDORAA (2025)";
    mkAnchor (Some "/dhandoraa-returns-tamil-web-series/") "Dhandoraa Returns" ].

Definition pages2025b : list Anchor := [ mkAnchor (Some "?page=1") "1" ].

(** First and only listing page of 2026. *)
Definition page2026 : string :=
  "<html><body><h1>Tamil 2026 Movies</h1>"
  +:+ "<div class='f'><a href='/dhandoraa-2025-tamil-movie/'>dhandoraa (early release)</a></div>"
  +:+ "<div class='f'><a href='/about/'>About dhandoraa</a></div>"
  +:+ "<p>More titles of 2026 are listed here as soon as they are released.</p>"
  +:+ "</body></html>".

Definition listing2026 : list Anchor :=
  [ mkAnchor (Some "/dhandoraa-2025-tamil-movie/") "dhandoraa (early release)";
    mkAnchor (Some "/about/") "About dhandoraa" ].

(** What cheerio selects in the three documents. *)
Definition listingAnchors (html : string) : list Anchor :=
  if String.eqb html page2025 then listing2025
  else if String.eqb html page2025b then listing2025b
  else if String.eqb html page2026 then listing2026
  else [].

Definition allAnchors (html : string) : list Anchor :=
  if String.eqb html page2025 then listing2025 ++ pages2025
  else if String.eqb html page2025b then listing2025b ++ pages2025b
  else if String.eqb html page2026 then listing2026
  else [].

Definition platform : Platform :=
  {| select_listing_anchors := listingAnchors;
     select_anchors := allAnchors;
     url_resolve := resolve;
     url_origin := origin |}.

(** The site: 2026 and 2025 have listings, the second page of 2025
    exists, the listing of 2024 answers 404, that of 2023 is a short
    placeholder, and every other request fails in transport. *)
Definition network (url : string) : option Response :=
  if String.eqb url "https://example.com/tamil-2026-movies/"
  then Some (mkResponse true page2026)
  else if String.eqb url "https://example.com/tamil-2025-movies/"
  then Some (mkResponse true page2025)
  else if String.eqb url "https://example.com/tamil-2025-movies/?page=2"
  then Some (mkResponse true page2025b)
  else if String.eqb url "https://example.com/tamil-2024-movies/"
  then Some (mkResponse false "Not Found")
  else if String.eqb url "https://example.com/tamil-2023-movies/"
  then Some (mkResponse true "<html></html>")
  else None.

(** Two completion orders: first issued first, and last issued first. *)
Definition fifo : Scheduler := fun _ _ _ => 0%nat.
Definition lifo : Scheduler := fun _ _ step => (BATCH_SIZE - 1 - step)%nat.

End Fixture.

(** ** Further auxiliary definitions *)

(** The set of urls of a list of links. *)
Definition urlSet (links : list LinkResult) : gset string :=
  list_to_set (map url links).

(** The page number an anchor names, as [detectMaxPages] reads it: the
    [href] is present and not empty and has a [page] parameter. *)
Definition pageParamOf (el : Anchor) : option Z :=
  match a_href el with
  | None => None
  | Some href =>
      if isEmpty href then None
      else match PageParam.matchQuery href with
           | Some digits => Some (PageParam.parseInt10 digits)
           | None => None
           end
  end.

(** The links one year adds to [allLinks] when [new URL(baseUrl)] gives
    [origin]: those of the first page, then those of the planned pages. *)
Definition yearLinks {P : Platform} (network : string -> option Response)
    (baseUrl origin query : string) (year : Z) : list LinkResult :=
  match fetchPageOrNull network (page1UrlOf baseUrl year) with
  | None => []
  | Some html1 =>
      uniqueLinks (pushedLinks html1 baseUrl (toLowerCase origin) query)
      ++ concat (map (plannedPageLinks network baseUrl origin query)
                     (plannedPageUrls baseUrl year (detectMaxPages html1)))
  end.

(** The events of one year in that case. *)
Definition yearLog {P : Platform} (network : string -> option Response)
    (baseUrl : string) (year : Z) : list Event :=
  EvFetch (page1UrlOf baseUrl year)
  :: match fetchPageOrNull network (page1UrlOf baseUrl year) with
     | None => []
     | Some html1 =>
         EvDetectMaxPages html1
         :: map EvFetch (plannedPageUrls baseUrl year (detectMaxPages html1))
     end.

(** The value of a decimal numeral read from the left, [acc] being the
    value of the digits already read. *)
Fixpoint uintValue (acc : Z) (d : Decimal.uint) : Z :=
  match d with
  | Decimal.Nil => acc
  | Decimal.D0 l => uintValue (10 * acc) l
  | Decimal.D1 l => uintValue (10 * acc + 1) l
  | Decimal.D2 l => uintValue (10 * acc + 2) l
  | Decimal.D3 l => uintValue (10 * acc + 3) l
  | Decimal.D4 l => uintValue (10 * acc + 4) l
  | Decimal.D5 l => uintValue (10 * acc + 5) l
  | Decimal.D6 l => uintValue (10 * acc + 6) l
  | Decimal.D7 l => uintValue (10 * acc + 7) l
  | Decimal.D8 l => uintValue (10 * acc + 8) l
  | Decimal.D9 l => uintValue (10 * acc + 9) l
  end.

(** The characters [?] and [&], with which a match of the page parameter
    begins. *)
Definition isQueryMark (c : ascii) : bool := Ascii.eqb c "?" || Ascii.eqb c "&".

Definition noQueryMark (s : string) : bool :=
  forallb (fun c => negb (isQueryMark c)) (list_ascii_of_string s).

(** ** The search by the site's own search pages ([src/unnamed/part_000]) *)

(** The earlier [index.ts]: it asks the search pages of the site instead of
    crawling the listings.  [uniqueLinks], [normalizeUrl] and
    [fetchWithTimeout] are those above, and [trySearch] is [fetchPage]. *)
Module SearchPages.
Section Defs.
Context {P : Platform}.
Variable network : string -> option Response.

(** [encodeURIComponent], of the platform; [None] when it throws
    [URIError] (the string has a lone surrogate). *)
Variable encodeURIComponent : string -> option string.

(** The callback of [$("a").each]. *)
Definition anchorLink (baseUrl baseOrigin : string) (element : Anchor)
  : option LinkResult :=
  match a_href element with
  | None => None
  | Some href =>
      let text := trim (a_text element) in
      if isEmpty href then None else
      match normalizeUrl baseUrl href with
      | None => None
      | Some url =>
          if isEmpty url then None else
          let lower := toLowerCase url in
          if negb (startsWith lower baseOrigin) then None else
          if isEmpty text then None else
          Some (mkLink text url)
      end
  end.

(** [extractLinks(html, baseUrl)]; [None] when [new URL(baseUrl)] throws. *)
Definition extractLinks (html baseUrl : string) : option (list LinkResult) :=
  match url_origin baseUrl with
  | None => None
  | Some origin =>
      let baseOrigin := toLowerCase origin in
      Some (uniqueLinks (omap (anchorLink baseUrl baseOrigin) (select_anchors html)))
  end.

(** [trySearch(url)] inside [try ... catch { html = null }]. *)
Definition trySearchOrNull (url : string) : option string :=
  match network url with
  | None => None
  | Some response =>
      if negb (ok response) then None else
      let text := body response in
      if isEmpty text || (String.length text <? 200)%nat then None
      else Some text
  end.

(** The array [candidates], [encoded] being [encodeURIComponent(query)]. *)
Definition candidateUrls (baseUrl encoded : string) : list string :=
  [ baseUrl +:+ "/search/" +:+ encoded;
    baseUrl +:+ "/?s=" +:+ encoded;
    baseUrl +:+ "/search?search=" +:+ encoded;
    baseUrl +:+ "/search?query=" +:+ encoded ].

(** The evaluation of the array: [None] when [encodeURIComponent(query)]
    throws, which no [try] of [searchMovieLinks] catches. *)
Definition candidates (baseUrl query : string) : option (list string) :=
  match encodeURIComponent query with
  | None => None
  | Some encoded => Some (candidateUrls baseUrl encoded)
  end.

(** [for (const url of candidates) { ...; if (html) break; }]: the value of
    [html] after the loop. *)
Fixpoint firstUsable (urls : list string) : Crawl (option string) :=
  match urls with
  | [] => ret None
  | url :: rest =>
      let* _ := emit (EvFetch url) in
      match trySearchOrNull url with
      | Some html => ret (Some html)
      | None => firstUsable rest
      end
  end.

(** The test of [.filter(...)] on a link. *)
Definition looksLikeMovie (link : LinkResult) : bool :=
  let lower := toLowerCase (url link) in
  includes lower "/movie" || includes lower "/movies"
  || includes lower "/movie-" || includes lower "/tamil".

Definition searchMovieLinks (params : SearchParams) : Crawl (list LinkResult) :=
  let baseUrl := baseUrl params in
  let query := trim (query params) in
  let maxResults := default 10 (maxResults params) in
  let* urls := orThrow (candidates baseUrl query) in
  let* html := firstUsable urls in
  match html with
  | None => ret []
  | Some html =>
      let* links := orThrow (extractLinks html baseUrl) in
      ret (slice0 (List.filter looksLikeMovie links) maxResults)
  end.

End Defs.
End SearchPages.

(** ** The debugging script ([src/debug_search.ts]) *)

(** [extractLinks], [normalizeUrl] and [uniqueLinks] of the script are those
    of [index.ts] with logging added; its [fetchPage] has no test on the
    length of the body. *)
Module DebugSearch.
Section Defs.
Context {P : Platform}.
Variable network : string -> option Response.
Variable sched : Scheduler.

Definition MAX_PAGES_PER_YEAR : Z := 4.
Definition BATCH_SIZE : nat := 2.

(** [fetchPage(url)]: the outer [None] is a rejected promise. *)
Definition fetchPage (url : string) : option (option string) :=
  match network url with
  | None => None
  | Some response =>
      if negb (ok response) then Some None else Some (Some (body response))
  end.

(** The loops that fill [candidateUrls]. *)
Definition candidateUrls (baseUrl : string) (currentYear : Z) : list string :=
  concat (map (fun year =>
                 page1UrlOf baseUrl year
                 :: map (pageUrlOf baseUrl year) (pageNumbers MAX_PAGES_PER_YEAR))
              [currentYear + 1; currentYear]).

(** The callback of [batch.map]: its [try ... catch] turns a rejected fetch
    and a throwing extraction into the empty array. *)
Definition pageTask (baseUrl query url : string) : option (list LinkResult) :=
  match fetchPage url with
  | None => Some []
  | Some None => Some []
  | Some (Some html) =>
      if isEmpty html then Some [] else
      match extractLinks html baseUrl query with
      | None => Some []
      | Some links => Some links
      end
  end.

(** The batch loop; the results of a batch are not used. *)
Fixpoint batchLoop (fuel : nat) (baseUrl query : string) (urls : list string)
    (i : nat) : Crawl unit :=
  match fuel with
  | O => ret tt
  | S fuel' =>
      if (i <? length urls)%nat then
        let batch := take BATCH_SIZE (drop i urls) in
        let* _ := (promiseAll (sched 0 i) (map (pageTask baseUrl query) batch),
                   map EvFetch batch) in
        batchLoop fuel' baseUrl query urls (i + BATCH_SIZE)
      else ret tt
  end.

(** [runDebug()] when [new Date().getFullYear()] is [currentYear]. *)
Definition runDebug (currentYear : Z) : Crawl unit :=
  let baseUrl := "https://moviesda15.com" in
  let query := "Alappuzha Gymkhana" in
  let urls := candidateUrls baseUrl currentYear in
  batchLoop (length urls) baseUrl query urls 0.

End Defs.
End DebugSearch.

(** * Properties *)

(** ** The definitions on small inputs *)

Example toLowerCase_ex : toLowerCase "Dhandoraa 2025 Movie" = "dhandoraa 2025 movie".
Proof. reflexivity. Qed.

Example trim_ex : trim "  a b  " = "a b".
Proof. reflexivity. Qed.
Example split_ex2 : splitWs "" = [""].
Proof. reflexivity. Qed.
Example includes_ex : includes "https://x.org/a-movie/" "-movie/" = true.
Proof. reflexivity. Qed.
Example split_ex1 : splitWs "alappuzha   gymkhana" = ["alappuzha"; "gymkhana"].
Proof. reflexivity. Qed.

Example split_ex3 : splitWs " a " = [""; "a"; ""].
Proof. reflexivity. Qed.

Example ofZ_ex : ofZ 2025 = "2025" /\ ofZ 0 = "0" /\ ofZ (-3) = "-3".
Proof. repeat split; reflexivity. Qed.

Example uniqueLinks_ex :
  uniqueLinks [mkLink "A" "u1"; mkLink "B" "u2"; mkLink "a" "u1"; mkLink "C" "u3"]
  = [mkLink "A" "u1"; mkLink "B" "u2"; mkLink "C" "u3"].
Proof. vm_compute. reflexivity. Qed.

Example matchQuery_ex :
  PageParam.matchQuery "/tamil-2025-movies/?page=12" = Some "12"
  /\ PageParam.matchQuery "/x?pages=3&page=x&page=07z" = Some "07"
  /\ PageParam.matchQuery "/page=3" = None
  /\ PageParam.parseInt10 "9999" = 9999.
Proof. repeat split; reflexivity. Qed.

Example promiseAll_order :
  promiseAll (fun _ => 0%nat) [Some 1; Some 2; Some 3] = Some [1; 2; 3]
  /\ promiseAll (fun _ => 2%nat) [Some 1; Some 2; Some 3] = Some [1; 2; 3]
  /\ settle (fun _ => 0%nat) 0 1 (imap pair [Some 1; Some 2; Some 3]) [None; None; None]
     = Some [Some 1; None; None]
  /\ settle (fun _ => 2%nat) 0 1 (imap pair [Some 1; Some 2; Some 3]) [None; None; None]
     = Some [None; None; Some 3]
  /\ promiseAll (fun _ => 1%nat) [Some 1; None; Some 3] = None.
Proof. repeat split; reflexivity. Qed.

Example yearsToScan_2025 :
  yearsToScan 2025 = [2026; 2025; 2024; 2023; 2022; 2021; 2020; 2019].
Proof. reflexivity. Qed.

Example slice0_ex :
  slice0 [1; 2; 3; 4] 2 = [1; 2] /\ slice0 [1; 2; 3; 4] 9 = [1; 2; 3; 4]
  /\ slice0 [1; 2; 3; 4] (-1) = [1; 2; 3] /\ slice0 [1; 2; 3; 4] 0 = [].
Proof. repeat split; reflexivity. Qed.

Example fixture_urls :
  Fixture.origin "https://Example.com" = Some "https://example.com"
  /\ Fixture.resolve "/a-movie/" "https://example.com" = Some "https://example.com/a-movie/"
  /\ Fixture.resolve "https://example.com.evil.net/a/" "https://example.com"
     = Some "https://example.com.evil.net/a/"
  /\ Fixture.resolve "https://other.org" "https://example.com" = Some "https://other.org/"
  /\ Fixture.resolve "javascript:void(0)" "https://example.com" = None.
Proof. repeat split; reflexivity. Qed.

Example fixture_pages_long :
  (200 <=? String.length Fixture.page2025)%nat = true
  /\ (200 <=? String.length Fixture.page2025b)%nat = true
  /\ (200 <=? String.length Fixture.page2026)%nat = true.
Proof. repeat split; reflexivity. Qed.

Example extractLinks_fixture :
  @extractLinks Fixture.platform Fixture.page2025 Fixture.site "Dhandoraa"
  = Some [ mkLink "Dhandoraa 2025 Movie" "https://example.com/dhandoraa-2025-tamil-movie/";
           mkLink "Dhandoraa HD" "https://example.com.evil.net/dhandoraa-2025-tamil-movie/" ].
Proof. vm_compute. reflexivity. Qed.

Example extractLinks_text_mode :
  @extractLinks Fixture.platform Fixture.page2025 Fixture.site "Gymkhana  (2025)"
  = Some [ mkLink "Alappuzha Gymkhana (2025) HD"
                  "https://example.com/alappuzha-gymkhana-2025-tamil-movie/" ].
Proof. vm_compute. reflexivity. Qed.

Example detectMaxPages_fixture :
  @detectMaxPages Fixture.platform Fixture.page2025 = 9999
  /\ @detectMaxPages Fixture.platform Fixture.page2026 = 1.
Proof. split; vm_compute; reflexivity. Qed.

Example searchMovieLinks_fixture :
  (@searchMovieLinks Fixture.platform Fixture.network Fixture.lifo 2025
     (mkParams Fixture.site " dhandoraa " None)).1
  = Some [ mkLink "dhandoraa (early release)"
                  "https://example.com/dhandoraa-2025-tamil-movie/";
           mkLink "Dhandoraa HD"
                  "https://example.com.evil.net/dhandoraa-2025-tamil-movie/";
           mkLink "Dhandoraa Returns"
                  "https://example.com/dhandoraa-returns-tamil-web-series/" ].
Proof. vm_compute. reflexivity. Qed.

(** ** Strings *)

Section StringFacts.

Lemma startsWith_empty (s : string) : startsWith s "" = true.
Proof. by destruct s. Qed.

Lemma includes_empty (s : string) : includes s "" = true.
Proof. destruct s; reflexivity. Qed.

Lemma isSpace_lowerChar (c : ascii) : isSpace (lowerChar c) = isSpace c.
Proof. destruct c as [[] [] [] [] [] [] [] []]; reflexivity. Qed.

Lemma isEmpty_toLowerCase (s : string) : isEmpty (toLowerCase s) = isEmpty s.
Proof. by destruct s. Qed.

Lemma isEmpty_true (s : string) : isEmpty s = true <-> s = "".
Proof. destruct s; simpl; split; congruence. Qed.

Lemma trimStart_toLowerCase (s : string) :
  trimStart (toLowerCase s) = toLowerCase (trimStart s).
Proof.
  induction s as [|c s IH]; simpl; [done|].
  rewrite isSpace_lowerChar. by destruct (isSpace c).
Qed.

Lemma trimEnd_toLowerCase (s : string) :
  trimEnd (toLowerCase s) = toLowerCase (trimEnd s).
Proof.
  induction s as [|c s IH]; simpl; [done|].
  rewrite IH, isSpace_lowerChar, isEmpty_toLowerCase.
  by destruct (isSpace c && isEmpty (trimEnd s)).
Qed.

Lemma trim_toLowerCase (s : string) : trim (toLowerCase s) = toLowerCase (trim s).
Proof. unfold trim. by rewrite trimStart_toLowerCase, trimEnd_toLowerCase. Qed.

Lemma everyWordIn_empty_word (hay : string) : everyWordIn [""] hay = true.
Proof. unfold everyWordIn. simpl. by rewrite includes_empty. Qed.

End StringFacts.

(** ** The deduplicator *)

Section Dedupe.

Lemma fold_uniqueStep (links : list LinkResult) seen result :
  (fold_left uniqueStep links (seen, result)).2 = result ++ keepFresh seen links.
Proof.
  revert seen result.
  induction links as [|link rest IH]; intros seen result; simpl.
  - by rewrite app_nil_r.
  - unfold uniqueStep at 2. simpl. destruct (decide (url link ∈ seen)).
    + apply IH.
    + rewrite IH. by rewrite <- app_assoc.
Qed.

Lemma uniqueLinks_keepFresh (links : list LinkResult) :
  uniqueLinks links = keepFresh ∅ links.
Proof. unfold uniqueLinks. by rewrite fold_uniqueStep. Qed.

Lemma keepFresh_sublist seen links : sublist (keepFresh seen links) links.
Proof.
  revert seen. induction links as [|link rest IH]; intros seen; simpl.
  - constructor.
  - destruct (decide (url link ∈ seen)).
    + by apply sublist_cons.
    + by apply sublist_skip.
Qed.

Lemma keepFresh_not_seen seen links l :
  l ∈ keepFresh seen links → url l ∉ seen.
Proof.
  revert seen. induction links as [|link rest IH]; intros seen; simpl.
  - by intros ?%elem_of_nil.
  - destruct (decide (url link ∈ seen)) as [|Hn]; [by apply IH|].
    intros [->|Hin]%elem_of_cons; [done|].
    apply IH in Hin. set_solver.
Qed.

Lemma keepFresh_NoDup seen links : NoDup (map url (keepFresh seen links)).
Proof.
  revert seen. induction links as [|link rest IH]; intros seen; simpl.
  - constructor.
  - destruct (decide (url link ∈ seen)); [by apply IH|].
    simpl. constructor; [|by apply IH].
    intros (l & Hu & Hl)%list_elem_of_fmap.
    apply keepFresh_not_seen in Hl. set_solver.
Qed.

Lemma keepFresh_find seen links u :
  u ∉ seen → find (hasUrl u) (keepFresh seen links) = find (hasUrl u) links.
Proof.
  revert seen. induction links as [|link rest IH]; intros seen Hu; simpl; [done|].
  unfold hasUrl at 2. destruct (String.eqb_spec (url link) u) as [He|Hne].
  - subst u. destruct (decide (url link ∈ seen)); [done|].
    simpl. unfold hasUrl at 1. by rewrite String.eqb_refl.
  - destruct (decide (url link ∈ seen)).
    + by apply IH.
    + simpl. unfold hasUrl at 1.
      destruct (String.eqb_spec (url link) u); [done|].
      apply IH. intros [Hs%elem_of_singleton|Hs]%elem_of_union; by auto.
Qed.

Lemma uniqueLinks_elem (links : list LinkResult) l :
  l ∈ uniqueLinks links → l ∈ links.
Proof.
  rewrite uniqueLinks_keepFresh. intros Hl.
  eapply elem_of_sublist; [done|apply keepFresh_sublist].
Qed.

Lemma find_hasUrl_Some (links : list LinkResult) l :
  l ∈ links → ∃ l', find (hasUrl (url l)) links = Some l' ∧ url l' = url l.
Proof.
  induction links as [|x rest IH]; [by intros ?%elem_of_nil|].
  intros Hin. simpl. unfold hasUrl at 1.
  destruct (String.eqb_spec (url x) (url l)) as [He|Hne]; [by eauto|].
  apply elem_of_cons in Hin as [->|Hin]; [done|]. by apply IH.
Qed.

Lemma find_elem {A} (f : A → bool) (l : list A) x : find f l = Some x → x ∈ l.
Proof.
  induction l as [|y l IH]; simpl; [done|].
  destruct (f y); [intros Heq; injection Heq as ->; left|intros Hf; right; by apply IH].
Qed.

Lemma uniqueLinks_url_kept (links : list LinkResult) l :
  l ∈ links → ∃ l', l' ∈ uniqueLinks links ∧ url l' = url l.
Proof.
  intros Hin. destruct (find_hasUrl_Some links l Hin) as (l' & Hf & Hu).
  exists l'. split; [|done].
  rewrite uniqueLinks_keepFresh.
  apply (find_elem (hasUrl (url l))).
  rewrite keepFresh_find; [done|set_solver].
Qed.

End Dedupe.

(** C7: [uniqueLinks] returns a subsequence of its input, in the input's
    order, in which no two elements have the same url, and for every url the
    element it keeps is the first one of the input with that url, title
    included: looking a url up in the result gives what looking it up in the
    input gives. *)
Theorem uniqueLinks_stable_first_wins (links : list LinkResult) :
  sublist (uniqueLinks links) links
  ∧ NoDup (map url (uniqueLinks links))
  ∧ (∀ u, find (hasUrl u) (uniqueLinks links) = find (hasUrl u) links)
  ∧ (∀ l, l ∈ links → ∃ l', l' ∈ uniqueLinks links ∧ url l' = url l).
Proof.
  repeat split.
  - rewrite uniqueLinks_keepFresh. apply keepFresh_sublist.
  - rewrite uniqueLinks_keepFresh. apply keepFresh_NoDup.
  - intros u. rewrite uniqueLinks_keepFresh. apply keepFresh_find. set_solver.
  - intros l. apply uniqueLinks_url_kept.
Qed.

(** ** The extractor *)

Section ExtractorFacts.
Context {P : Platform}.

Lemma anchorLink_candidate baseUrl baseOrigin queryWords element :
  anchorLink baseUrl baseOrigin queryWords element =
  match anchorCandidate baseUrl baseOrigin element with
  | Some c => if matchesQuery queryWords c then Some c else None
  | None => None
  end.
Proof.
  unfold anchorLink, anchorCandidate, matchesQuery.
  destruct (a_href element) as [href|]; [|done].
  destruct (isEmpty href || isEmpty (trim (a_text element))); [done|].
  destruct (normalizeUrl baseUrl href) as [u|]; [|done].
  destruct (isEmpty u); [done|].
  destruct (negb (startsWith (toLowerCase u) baseOrigin)); [done|].
  destruct (includes (toLowerCase u) "-movies/"); [done|].
  by destruct (negb (includes (toLowerCase u) "-movie/")
               && negb (includes (toLowerCase u) "-series/")).
Qed.

Lemma anchorCandidate_passes baseUrl baseOrigin element c :
  anchorCandidate baseUrl baseOrigin element = Some c
  ↔ passesFilters baseUrl baseOrigin element c.
Proof.
  unfold anchorCandidate, passesFilters. split.
  - destruct (a_href element) as [href|]; [|done].
    destruct (isEmpty href) eqn:Hh; [done|].
    destruct (isEmpty (trim (a_text element))) eqn:Ht; [done|]. simpl.
    destruct (normalizeUrl baseUrl href) as [u|] eqn:Hn; [|done].
    destruct (isEmpty u); [done|].
    destruct (startsWith (toLowerCase u) baseOrigin) eqn:Ho; [|done]. simpl.
    destruct (includes (toLowerCase u) "-movies/") eqn:Hd; [done|].
    destruct (includes (toLowerCase u) "-movie/") eqn:Hm;
      destruct (includes (toLowerCase u) "-series/") eqn:Hs; simpl;
      try done; intros [= <-]; simpl; exists href; rewrite ?Hm, ?Hs; eauto 12.
  - intros (href & -> & Hh & Ht & Hne & Hn & Ho & Hd & Ha).
    rewrite Hh, <- Ht, Hne, Hn. simpl.
    destruct (isEmpty (url c)) eqn:Hu.
    { apply isEmpty_true in Hu. rewrite Hu in Ho, Ha. simpl in *.
      destruct Ha as [Ha|Ha]; discriminate Ha. }
    rewrite Ho, Hd. simpl.
    destruct Ha as [-> | ->]; simpl; rewrite ?andb_false_r;
      destruct c; simpl in *; by subst.
Qed.

Lemma pushedLinks_elem html baseUrl baseOrigin query l :
  l ∈ pushedLinks html baseUrl baseOrigin query
  ↔ ∃ element, element ∈ select_listing_anchors html
      ∧ anchorCandidate baseUrl baseOrigin element = Some l
      ∧ matchesQuery (queryWordsOf query) l = true.
Proof.
  unfold pushedLinks. rewrite list_elem_of_omap. split.
  - intros (element & Hin & Hl). exists element. split; [done|].
    rewrite anchorLink_candidate in Hl.
    destruct (anchorCandidate baseUrl baseOrigin element) as [c|]; [|done].
    destruct (matchesQuery (queryWordsOf query) c) eqn:Hm; [|done].
    by injection Hl as ->.
  - intros (element & Hin & Hc & Hm). exists element. split; [done|].
    by rewrite anchorLink_candidate, Hc, Hm.
Qed.

Lemma extractLinks_elem html baseUrl query links l :
  extractLinks html baseUrl query = Some links → l ∈ links →
  ∃ origin element,
    url_origin baseUrl = Some origin
    ∧ element ∈ select_listing_anchors html
    ∧ passesFilters baseUrl (toLowerCase origin) element l
    ∧ matchesQuery (queryWordsOf query) l = true.
Proof.
  unfold extractLinks. destruct (url_origin baseUrl) as [origin|]; [|done].
  intros [= <-] Hl%uniqueLinks_elem.
  apply pushedLinks_elem in Hl as (element & Hin & Hc & Hm).
  exists origin, element. by rewrite <- anchorCandidate_passes.
Qed.

(** What the origin check of [extractLinks] does ensure. *)
Lemma extractLinks_origin_prefix html baseUrl query links l :
  extractLinks html baseUrl query = Some links → l ∈ links →
  ∃ origin, url_origin baseUrl = Some origin
    ∧ startsWith (toLowerCase (url l)) (toLowerCase origin) = true.
Proof.
  intros He Hl.
  destruct (extractLinks_elem _ _ _ _ _ He Hl)
    as (origin & element & Ho & _ & (href & Hp) & _).
  exists origin. tauto.
Qed.

End ExtractorFacts.

(** C4: no link returned by [extractLinks] has ["-movies/"] in its
    lowercased url, every one has ["-movie/"] or ["-series/"] in it, and an
    anchor whose resolved url contains ["-movies/"] once lowercased is never
    pushed, whatever else the url contains: no returned link has its url. *)
Theorem slug_shape_filter {P : Platform} (html baseUrl query : string)
    (links : list LinkResult) :
  extractLinks html baseUrl query = Some links →
  (∀ l, l ∈ links →
     includes (toLowerCase (url l)) "-movies/" = false
     ∧ (includes (toLowerCase (url l)) "-movie/" = true
        ∨ includes (toLowerCase (url l)) "-series/" = true))
  ∧ (∀ element href u,
       element ∈ select_listing_anchors html →
       a_href element = Some href →
       normalizeUrl baseUrl href = Some u →
       includes (toLowerCase u) "-movies/" = true →
       (∀ baseOrigin queryWords,
          anchorLink baseUrl baseOrigin queryWords element = None)
       ∧ ∀ l, l ∈ links → url l ≠ u).
Proof.
  intros He.
  assert (Hall : ∀ l, l ∈ links →
     includes (toLowerCase (url l)) "-movies/" = false
     ∧ (includes (toLowerCase (url l)) "-movie/" = true
        ∨ includes (toLowerCase (url l)) "-series/" = true)).
  { intros l Hl.
    destruct (extractLinks_elem _ _ _ _ _ He Hl)
      as (origin & element & _ & _ & (href & Hp) & _).
    tauto. }
  split; [exact Hall|].
  intros element href u Hin Hh Hn Hd. split.
  - intros baseOrigin queryWords. unfold anchorLink. rewrite Hh, Hn, Hd.
    destruct (isEmpty href || isEmpty (trim (a_text element))); [done|].
    destruct (isEmpty u); [done|].
    by destruct (negb (startsWith (toLowerCase u) baseOrigin)).
  - intros l Hl Hu. destruct (Hall l Hl) as [Hf _]. congruence.
Qed.

Lemma slug_shape_filter_witness :
  (∀ l, l ∈ [ mkLink "Dhandoraa 2025 Movie"
                      "https://example.com/dhandoraa-2025-tamil-movie/";
               mkLink "Dhandoraa HD"
                      "https://example.com.evil.net/dhandoraa-2025-tamil-movie/" ] →
     includes (toLowerCase (url l)) "-movies/" = false
     ∧ (includes (toLowerCase (url l)) "-movie/" = true
        ∨ includes (toLowerCase (url l)) "-series/" = true))
  ∧ (∀ element href u,
       element ∈ Fixture.listingAnchors Fixture.page2025 →
       a_href element = Some href →
       Fixture.resolve href Fixture.site = Some u →
       includes (toLowerCase u) "-movies/" = true →
       (∀ baseOrigin queryWords,
          @anchorLink Fixture.platform Fixture.site baseOrigin queryWords element
          = None)
       ∧ ∀ l, l ∈ [ mkLink "Dhandoraa 2025 Movie"
                           "https://example.com/dhandoraa-2025-tamil-movie/";
                    mkLink "Dhandoraa HD"
                           "https://example.com.evil.net/dhandoraa-2025-tamil-movie/" ] →
              url l ≠ u).
Proof.
  apply (@slug_shape_filter Fixture.platform Fixture.page2025 Fixture.site "Dhandoraa").
  vm_compute. reflexivity.
Defined.

(** C1: [extractLinks] compares origins with [startsWith] on the
    lowercased strings, so a host name that continues the base host passes:
    on the first listing page of the example site, with base url
    [https://example.com], it returns a link whose url has the origin
    [https://example.com.evil.net]. *)
Theorem extractLinks_cross_origin_link :
  ∃ links l,
    @extractLinks Fixture.platform Fixture.page2025 "https://example.com" "dhandoraa"
    = Some links
    ∧ l ∈ links
    ∧ url l = "https://example.com.evil.net/dhandoraa-2025-tamil-movie/"
    ∧ @url_origin Fixture.platform (url l) = Some "https://example.com.evil.net"
    ∧ @url_origin Fixture.platform "https://example.com" = Some "https://example.com"
    ∧ @url_origin Fixture.platform (url l)
      ≠ @url_origin Fixture.platform "https://example.com".
Proof.
  exists [ mkLink "Dhandoraa 2025 Movie" "https://example.com/dhandoraa-2025-tamil-movie/";
           mkLink "Dhandoraa HD" "https://example.com.evil.net/dhandoraa-2025-tamil-movie/" ].
  exists (mkLink "Dhandoraa HD" "https://example.com.evil.net/dhandoraa-2025-tamil-movie/").
  split; [vm_compute; reflexivity|].
  split; [apply elem_of_cons; right; apply elem_of_cons; by left|].
  repeat split; try (vm_compute; reflexivity).
  vm_compute. discriminate.
Qed.

(** C3: for an anchor of the document that passes the filters before the
    match step, the callback pushes its link exactly when every word of the
    lowercased, trimmed, whitespace-split query is a substring of the
    lowercased text, or every word is a substring of the lowercased url;
    each of the two modes is enough for the url to be among the links
    [extractLinks] returns, and the link is among them only on a match. *)
Theorem match_text_or_url {P : Platform} (html baseUrl query origin : string)
    (element : Anchor) (c : LinkResult) :
  url_origin baseUrl = Some origin →
  element ∈ select_listing_anchors html →
  passesFilters baseUrl (toLowerCase origin) element c →
  let words := splitWs (trim (toLowerCase query)) in
  let matchText := forallb (λ w, includes (toLowerCase (title c)) w) words in
  let matchUrl := forallb (λ w, includes (toLowerCase (url c)) w) words in
  (anchorLink baseUrl (toLowerCase origin) words element = Some c
   ↔ matchText || matchUrl = true)
  ∧ (anchorLink baseUrl (toLowerCase origin) words element = None
     ↔ matchText || matchUrl = false)
  ∧ (c ∈ pushedLinks html baseUrl (toLowerCase origin) query
     ↔ matchText || matchUrl = true)
  ∧ ∃ links,
      extractLinks html baseUrl query = Some links
      ∧ (matchText = true → ∃ l, l ∈ links ∧ url l = url c)
      ∧ (matchUrl = true → ∃ l, l ∈ links ∧ url l = url c)
      ∧ (c ∈ links → matchText || matchUrl = true).
Proof.
  intros Ho Hin Hp words matchText matchUrl.
  assert (Hc : anchorCandidate baseUrl (toLowerCase origin) element = Some c)
    by by apply anchorCandidate_passes.
  assert (Hm : matchesQuery words c = matchText || matchUrl) by reflexivity.
  assert (Hpush : c ∈ pushedLinks html baseUrl (toLowerCase origin) query
                  ↔ matchText || matchUrl = true).
  { rewrite pushedLinks_elem, <- Hm. split.
    - by intros (_ & _ & _ & H).
    - intros H. by exists element. }
  rewrite !anchorLink_candidate, Hc, Hm.
  split; [destruct (matchText || matchUrl); split; congruence|].
  split; [destruct (matchText || matchUrl); split; congruence|].
  split; [exact Hpush|].
  unfold extractLinks. rewrite Ho. eexists. split; [reflexivity|].
  split; [|split].
  - intros Ht. apply uniqueLinks_url_kept, Hpush. by rewrite Ht.
  - intros Hu. apply uniqueLinks_url_kept, Hpush. rewrite Hu. apply orb_true_r.
  - intros Hl%uniqueLinks_elem. by apply Hpush.
Qed.

Lemma match_text_or_url_witness :
  let element := mkAnchor (Some "/alappuzha-gymkhana-2025-tamil-movie/")
                          " Alappuzha Gymkhana (2025) HD " in
  let c := mkLink "Alappuzha Gymkhana (2025) HD"
                  "https://example.com/alappuzha-gymkhana-2025-tamil-movie/" in
  let words := splitWs (trim (toLowerCase "Gymkhana  (2025)")) in
  let matchText := forallb (λ w, includes (toLowerCase (title c)) w) words in
  let matchUrl := forallb (λ w, includes (toLowerCase (url c)) w) words in
  (@anchorLink Fixture.platform Fixture.site (toLowerCase "https://example.com")
     words element = Some c ↔ matchText || matchUrl = true)
  ∧ (@anchorLink Fixture.platform Fixture.site (toLowerCase "https://example.com")
       words element = None ↔ matchText || matchUrl = false)
  ∧ (c ∈ @pushedLinks Fixture.platform Fixture.page2025 Fixture.site
           (toLowerCase "https://example.com") "Gymkhana  (2025)"
     ↔ matchText || matchUrl = true)
  ∧ ∃ links,
      @extractLinks Fixture.platform Fixture.page2025 Fixture.site "Gymkhana  (2025)"
      = Some links
      ∧ (matchText = true → ∃ l, l ∈ links ∧ url l = url c)
      ∧ (matchUrl = true → ∃ l, l ∈ links ∧ url l = url c)
      ∧ (c ∈ links → matchText || matchUrl = true).
Proof.
  apply (@match_text_or_url Fixture.platform Fixture.page2025 Fixture.site
           "Gymkhana  (2025)" "https://example.com").
  - vm_compute. reflexivity.
  - apply list_elem_of_In. vm_compute. tauto.
  - exists "/alappuzha-gymkhana-2025-tamil-movie/".
    vm_compute. repeat split; auto.
Defined.

(** C10: when the trimmed query is empty, [extractLinks] splits it into
    the single word [""], which is a substring of every string, so the match
    step lets every anchor through: the callback pushes the link of every
    anchor that passes the filters, and the result is the deduplicated list
    of all of them.  A query of white space only has length at least 1, as
    the input schema requires. *)
Theorem whitespace_query_matches_all {P : Platform}
    (html baseUrl query origin : string) :
  trim query = "" →
  url_origin baseUrl = Some origin →
  queryWordsOf query = [""]
  ∧ (∀ s, includes s "" = true)
  ∧ (query ≠ "" → (1 <=? String.length query)%nat = true)
  ∧ (∀ element c,
       passesFilters baseUrl (toLowerCase origin) element c →
       anchorLink baseUrl (toLowerCase origin) (queryWordsOf query) element = Some c)
  ∧ extractLinks html baseUrl query
    = Some (uniqueLinks (omap (anchorCandidate baseUrl (toLowerCase origin))
                              (select_listing_anchors html)))
  ∧ (∀ element c,
       element ∈ select_listing_anchors html →
       passesFilters baseUrl (toLowerCase origin) element c →
       ∃ links l, extractLinks html baseUrl query = Some links
                  ∧ l ∈ links ∧ url l = url c).
Proof.
  intros Ht Ho.
  assert (Hw : queryWordsOf query = [""]).
  { unfold queryWordsOf. by rewrite trim_toLowerCase, Ht. }
  assert (Hall : ∀ c, matchesQuery (queryWordsOf query) c = true).
  { intros c. unfold matchesQuery. by rewrite Hw, everyWordIn_empty_word. }
  assert (Hlink : ∀ element,
    anchorLink baseUrl (toLowerCase origin) (queryWordsOf query) element
    = anchorCandidate baseUrl (toLowerCase origin) element).
  { intros element. rewrite anchorLink_candidate.
    destruct (anchorCandidate baseUrl (toLowerCase origin) element); [|done].
    by rewrite Hall. }
  assert (He : extractLinks html baseUrl query
    = Some (uniqueLinks (omap (anchorCandidate baseUrl (toLowerCase origin))
                              (select_listing_anchors html)))).
  { unfold extractLinks, pushedLinks. rewrite Ho. do 2 f_equal.
    induction (select_listing_anchors html) as [|a l IH]; csimpl; [done|].
    by rewrite Hlink, IH. }
  split; [exact Hw|].
  split; [exact includes_empty|].
  split; [by destruct query|].
  split; [intros element c Hp; rewrite Hlink; by apply anchorCandidate_passes|].
  split; [exact He|].
  intros element c Hin Hp. eexists. 
  destruct (uniqueLinks_url_kept
              (omap (anchorCandidate baseUrl (toLowerCase origin))
                    (select_listing_anchors html)) c) as (l & Hl & Hu).
  { apply list_elem_of_omap. exists element. split; [done|].
    by apply anchorCandidate_passes. }
  exists l. by rewrite He.
Qed.

Lemma whitespace_query_matches_all_witness :
  @queryWordsOf "  " = [""]
  ∧ (∀ s, includes s "" = true)
  ∧ ("  " ≠ "" → (1 <=? String.length "  ")%nat = true)
  ∧ (∀ element c,
       @passesFilters Fixture.platform Fixture.site
          (toLowerCase "https://example.com") element c →
       @anchorLink Fixture.platform Fixture.site (toLowerCase "https://example.com")
          (queryWordsOf "  ") element = Some c)
  ∧ @extractLinks Fixture.platform Fixture.page2025 Fixture.site "  "
    = Some (uniqueLinks
              (omap (@anchorCandidate Fixture.platform Fixture.site
                       (toLowerCase "https://example.com"))
                    (Fixture.listingAnchors Fixture.page2025)))
  ∧ (∀ element c,
       element ∈ Fixture.listingAnchors Fixture.page2025 →
       @passesFilters Fixture.platform Fixture.site
          (toLowerCase "https://example.com") element c →
       ∃ links l,
         @extractLinks Fixture.platform Fixture.page2025 Fixture.site "  "
         = Some links ∧ l ∈ links ∧ url l = url c).
Proof.
  apply (@whitespace_query_matches_all Fixture.platform Fixture.page2025
           Fixture.site "  " "https://example.com"); vm_compute; reflexivity.
Defined.

(** ** [Promise.all] gives the values by index *)

Section PromiseAllFacts.
Context {A : Type}.
Implicit Types (pending : list (nat * option A)) (values : list (option A)).

(** The promise that settles at a step, and the ones that stay pending. *)
Lemma settle_pick pending (k n : nat) :
  length pending = S n →
  ∃ index o l1 l2,
    pending !! (Nat.modulo k (length pending)) = Some (index, o)
    ∧ pending = l1 ++ (index, o) :: l2
    ∧ delete (Nat.modulo k (length pending)) pending = l1 ++ l2.
Proof.
  intros Hlen.
  assert (Hj : (Nat.modulo k (length pending) < length pending)%nat).
  { apply Nat.mod_upper_bound. lia. }
  destruct (lookup_lt_is_Some_2 _ _ Hj) as [[index o] Hl].
  exists index, o, (take (Nat.modulo k (length pending)) pending),
         (drop (S (Nat.modulo k (length pending))) pending).
  split; [done|]. split.
  - symmetry. by apply take_drop_middle.
  - apply delete_take_drop.
Qed.

Lemma settle_rejected (n : nat) : ∀ pick step pending values,
  length pending = n →
  (∃ i, (i, None) ∈ pending) →
  settle pick step n pending values = None.
Proof.
  induction n as [|n IH]; intros pick step pending values Hlen [i Hi].
  - destruct pending; [by apply elem_of_nil in Hi|done].
  - destruct (settle_pick pending (pick step) n Hlen)
      as (index & o & l1 & l2 & Hl & Hp & Hd).
    simpl. rewrite Hl. destruct o as [v|]; [|done].
    rewrite Hd. apply IH.
    + rewrite Hp in Hlen. rewrite length_app in *. simpl in Hlen. lia.
    + exists i. rewrite Hp in Hi.
      apply elem_of_app in Hi as [Hi|Hi]; [apply elem_of_app; by left|].
      apply elem_of_cons in Hi as [Hi|Hi]; [done|].
      apply elem_of_app; by right.
Qed.

Lemma settle_fulfilled (n : nat) : ∀ pick step pending values,
  length pending = n →
  NoDup (pending.*1) →
  (∀ i o, (i, o) ∈ pending → is_Some o ∧ (i < length values)%nat) →
  ∃ values',
    settle pick step n pending values = Some values'
    ∧ length values' = length values
    ∧ (∀ i v, (i, Some v) ∈ pending → values' !! i = Some (Some v))
    ∧ (∀ i, i ∉ pending.*1 → values' !! i = values !! i).
Proof.
  induction n as [|n IH]; intros pick step pending values Hlen Hnd Hok.
  - destruct pending; [|done]. exists values. simpl.
    split; [done|]. split; [done|]. split; [|done].
    by intros i v ?%elem_of_nil.
  - destruct (settle_pick pending (pick step) n Hlen)
      as (index & o & l1 & l2 & Hl & Hp & Hd).
    simpl. rewrite Hl, Hd. clear Hl Hd. subst pending.
    destruct (Hok index o) as [[v ->] Hidx].
    { apply elem_of_app; right; by left. }
    rewrite fmap_app, fmap_cons in Hnd. simpl in Hnd.
    apply NoDup_app in Hnd as (Hnd1 & Hdisj & Hnd2).
    apply NoDup_cons in Hnd2 as [Hnot2 Hnd2].
    assert (Hnot1 : index ∉ l1.*1).
    { intros Hin. apply (Hdisj _ Hin). by left. }
    destruct (IH pick (S step) (l1 ++ l2) (<[index := Some v]> values))
      as (values' & Hs & Hlen' & Hin' & Hout').
    + rewrite length_app in *. simpl in Hlen. lia.
    + rewrite fmap_app. apply NoDup_app. repeat split; [done| |done].
      intros x Hx1 Hx2. apply (Hdisj _ Hx1). by right.
    + intros i o [Hi|Hi]%elem_of_app; rewrite length_insert;
        apply Hok, elem_of_app; [by left|right; by right].
    + exists values'. rewrite length_insert in Hlen'.
      repeat split; [done|done| |].
      * intros i w [Hi|Hi]%elem_of_app.
        { apply Hin', elem_of_app. by left. }
        apply elem_of_cons in Hi as [Hi|Hi].
        { injection Hi as -> ->. rewrite Hout'.
          - by apply list_lookup_insert_eq.
          - rewrite fmap_app. intros [?|?]%elem_of_app; done. }
        apply Hin', elem_of_app. by right.
      * intros i Hi. rewrite fmap_app, fmap_cons in Hi. simpl in Hi.
        rewrite Hout'.
        { apply list_lookup_insert_ne. intros ->. apply Hi.
          apply elem_of_app; right; by left. }
        rewrite fmap_app. intros [?|?]%elem_of_app; apply Hi;
          apply elem_of_app; [by left|right; by right].
Qed.

Lemma imap_pair_elem (promises : list (option A)) i o :
  (i, o) ∈ imap pair promises ↔ promises !! i = Some o.
Proof.
  rewrite elem_of_lookup_imap. split.
  - by intros (j & y & [= -> ->] & Hl).
  - intros Hl. by exists i, o.
Qed.

Lemma imap_pair_indices (promises : list (option A)) :
  (imap pair promises).*1 = seq 0 (length promises).
Proof.
  rewrite fmap_imap.
  rewrite (imap_ext _ (λ j _, j)); [|done].
  rewrite (imap_seq_0 promises (λ j, j)). apply list_fmap_id.
Qed.

(** Whatever the order of completion, [await Promise.all(promises)] gives
    the values in the order of [promises], and throws exactly when one of
    them rejects. *)
Lemma promiseAll_by_index (pick : nat → nat) (promises : list (option A)) :
  promiseAll pick promises = mapM id promises.
Proof.
  unfold promiseAll.
  destruct (mapM id promises) as [vs|] eqn:Hm.
  - assert (Hall : ∀ i o, promises !! i = Some o → is_Some o).
    { intros i o Hl. apply mapM_Some_1 in Hm.
      destruct (Forall2_lookup_l _ _ _ _ _ Hm Hl) as (y & _ & Hy).
      simpl in Hy. by subst. }
    destruct (settle_fulfilled (length promises) pick 0 (imap pair promises)
                (replicate (length promises) None))
      as (values' & -> & Hlen & Hin & _).
    + apply length_imap.
    + rewrite imap_pair_indices. apply NoDup_seq.
    + intros i o Hi%imap_pair_elem. split; [by eapply Hall|].
      rewrite length_replicate. by eapply lookup_lt_Some.
    + rewrite length_replicate in Hlen.
      assert (values' = promises) as ->; [|done].
      apply list_eq. intros i.
      destruct (promises !! i) as [o|] eqn:Hl.
      * destruct (Hall _ _ Hl) as [v ->].
        apply Hin. by apply imap_pair_elem.
      * apply lookup_ge_None. apply lookup_ge_None in Hl. lia.
  - rewrite settle_rejected; [done|apply length_imap|].
    apply mapM_None in Hm. apply Exists_exists in Hm as (o & Ho & Hnone).
    simpl in Hnone. subst o.
    apply list_elem_of_lookup in Ho as [i Hi].
    exists i. by apply imap_pair_elem.
Qed.

End PromiseAllFacts.

(** ** The planner *)

Lemma yearsToScan_unfold (currentYear : Z) :
  yearsToScan currentYear
  = (currentYear + 1) :: map (fun i => currentYear - Z.of_nat i) (seq 0 YEAR_RANGE).
Proof. reflexivity. Qed.

(** What the loop gives: the year after the current one, then the current
    year, then the 6 years before it, 8 years in all; the first of the
    [YEAR_RANGE] turns of the loop is spent on the current year. *)
Lemma yearsToScan_six_past_years (currentYear : Z) :
  yearsToScan currentYear = plan_spec 6 currentYear
  ∧ yearsToScan currentYear
    = [ currentYear + 1; currentYear; currentYear - 1; currentYear - 2;
        currentYear - 3; currentYear - 4; currentYear - 5; currentYear - 6 ]
  ∧ length (yearsToScan currentYear) = 8%nat.
Proof.
  rewrite yearsToScan_unfold. unfold plan_spec. simpl.
  rewrite Z.sub_0_r. done.
Qed.

(** C2: the planner looks back one year less than the 7 years that the
    comment on [YEAR_RANGE] and the claim say: in 2025 it gives 2026, 2025
    and the years from 2024 down to 2019, which is not the year after, the
    current year and the 7 years before it; 2018 is never scanned. *)
Theorem yearsToScan_not_seven_past_years :
  yearsToScan 2025 = [2026; 2025; 2024; 2023; 2022; 2021; 2020; 2019]
  ∧ plan_spec 7 2025 = [2026; 2025; 2024; 2023; 2022; 2021; 2020; 2019; 2018]
  ∧ yearsToScan 2025 ≠ plan_spec 7 2025
  ∧ 2018 ∈ plan_spec 7 2025
  ∧ 2018 ∉ yearsToScan 2025.
Proof.
  split; [reflexivity|]. split; [reflexivity|].
  split; [vm_compute; discriminate|].
  split.
  - apply list_elem_of_In. vm_compute. tauto.
  - intros Hin%list_elem_of_In. vm_compute in Hin.
    repeat (destruct Hin as [Hin|Hin]; [discriminate Hin|]). done.
Qed.

(** ** The orchestrator *)

Section CrawlFacts.

Lemma bind_Some {A B} (a : A) (log : list Event) (k : A → Crawl B) :
  bind (Some a, log) k = ((k a).1, log ++ (k a).2).
Proof. reflexivity. Qed.

Lemma bind_None {A B} (log : list Event) (k : A → Crawl B) :
  bind (None, log) k = (None, log).
Proof. reflexivity. Qed.

Lemma fetchCount_app (l1 l2 : list Event) :
  fetchCount (l1 ++ l2) = (fetchCount l1 + fetchCount l2)%nat.
Proof. unfold fetchCount. by rewrite filter_app, length_app. Qed.

Lemma fetchCount_fetches (urls : list string) :
  fetchCount (map EvFetch urls) = length urls.
Proof.
  unfold fetchCount. induction urls as [|u urls IH]; [done|].
  rewrite map_cons, filter_cons_True by done. simpl. by rewrite IH.
Qed.

Lemma fetchCount_le (log : list Event) : (fetchCount log ≤ length log)%nat.
Proof. unfold fetchCount. apply length_filter. Qed.

Lemma fetchCount_prefix (l1 l2 : list Event) :
  l1 `prefix_of` l2 → (fetchCount l1 ≤ fetchCount l2)%nat.
Proof. intros [k ->]. rewrite fetchCount_app. lia. Qed.

Lemma slice0_length {A} (arr : list A) (end_ : Z) :
  0 ≤ end_ → (length (slice0 arr end_) ≤ Z.to_nat end_)%nat.
Proof.
  intros Hpos. unfold slice0.
  destruct (end_ <? 0) eqn:Hneg; [apply Z.ltb_lt in Hneg; lia|].
  rewrite length_take. lia.
Qed.

End CrawlFacts.

Section OrchestratorFacts.
Context {P : Platform}.
Variable network : string → option Response.

Lemma detectMaxPages_ge_1 (html : string) : 1 ≤ detectMaxPages html.
Proof.
  unfold detectMaxPages.
  generalize (select_anchors html). intros anchors.
  assert (Hgen : ∀ start, 1 ≤ start → 1 ≤ fold_left
    (fun maxPage el =>
       match a_href el with
       | None => maxPage
       | Some href =>
           if isEmpty href then maxPage else
           match PageParam.matchQuery href with
           | Some digits =>
               let p := PageParam.parseInt10 digits in
               if maxPage <? p then p else maxPage
           | None => maxPage
           end
       end) anchors start); [|by apply Hgen].
  induction anchors as [|el anchors IH]; intros start Hs; simpl; [done|].
  apply IH.
  destruct (a_href el) as [href|]; [|done].
  destruct (isEmpty href); [done|].
  destruct (PageParam.matchQuery href) as [digits|]; [|done].
  simpl. destruct (start <? PageParam.parseInt10 digits) eqn:Hlt; [|done].
  apply Z.ltb_lt in Hlt. lia.
Qed.

Lemma fetchPageOrNull_unusable (url : string) :
  firstPageUnusable network url → fetchPageOrNull network url = None.
Proof.
  unfold fetchPageOrNull, fetchPage.
  intros [-> | (response & -> & Hr)]; [done|].
  destruct Hr as [-> | [Hb | Hb]]; [done| |].
  - rewrite Hb. by destruct (negb (ok response)).
  - apply Nat.ltb_lt in Hb. rewrite Hb, orb_true_r.
    by destruct (negb (ok response)).
Qed.

Lemma fetchPageOrNull_usable (url html : string) :
  fetchPageOrNull network url = Some html →
  ∃ response, network url = Some response ∧ ok response = true
    ∧ body response = html ∧ (200 ≤ String.length html)%nat.
Proof.
  unfold fetchPageOrNull, fetchPage.
  destruct (network url) as [response|]; [|done].
  destruct (ok response) eqn:Hok; simpl; [|done].
  destruct (isEmpty (body response)); simpl; [done|].
  destruct (String.length (body response) <? 200)%nat eqn:Hlen; [done|].
  intros Heq. injection Heq as <-. exists response.
  apply Nat.ltb_ge in Hlen. done.
Qed.

Lemma pageLinks_planned baseUrl origin query url :
  url_origin baseUrl = Some origin →
  pageLinks network baseUrl query url
  = Some (plannedPageLinks network baseUrl origin query url).
Proof.
  intros Ho. unfold pageLinks, plannedPageLinks, extractLinks.
  destruct (fetchPageOrNull network url); [|done]. by rewrite Ho.
Qed.

(** A batch does not depend on the order in which its fetches complete. *)
Lemma fetchBatch_by_index sched baseUrl query year i batch :
  fetchBatch network sched baseUrl query year i batch
  = (mapM id (map (pageLinks network baseUrl query) batch), map EvFetch batch).
Proof. unfold fetchBatch. by rewrite promiseAll_by_index. Qed.

Lemma fetchBatch_planned sched baseUrl origin query year i batch :
  url_origin baseUrl = Some origin →
  fetchBatch network sched baseUrl query year i batch
  = (Some (map (plannedPageLinks network baseUrl origin query) batch),
     map EvFetch batch).
Proof.
  intros Ho. rewrite fetchBatch_by_index. f_equal.
  apply mapM_Some_2. induction batch as [|u batch IH]; simpl.
  - constructor.
  - constructor; [|done]. simpl. by apply pageLinks_planned.
Qed.

Lemma fold_concat (results : list (list LinkResult)) (allLinks : list LinkResult) :
  fold_left (fun acc l => acc ++ l) results allLinks = allLinks ++ concat results.
Proof.
  revert allLinks. induction results as [|r results IH]; intros allLinks; simpl.
  - by rewrite app_nil_r.
  - by rewrite IH, app_assoc.
Qed.

Lemma drop_batch {A} (l : list A) (i : nat) :
  drop i l = take BATCH_SIZE (drop i l) ++ drop (i + BATCH_SIZE) l.
Proof. by rewrite <- drop_drop, take_drop. Qed.

Lemma batchLoop_schedule s1 s2 fuel baseUrl query year pageUrls :
  ∀ i allLinks,
    batchLoop network s1 fuel baseUrl query year pageUrls i allLinks
    = batchLoop network s2 fuel baseUrl query year pageUrls i allLinks.
Proof.
  induction fuel as [|fuel IH]; intros i allLinks; simpl; [done|].
  destruct (i <? length pageUrls)%nat; [|done].
  rewrite !fetchBatch_by_index.
  destruct (mapM id _) as [results|]; [|done].
  rewrite !bind_Some. by rewrite IH.
Qed.

(** The requests of the batch loop are requests for planned pages, in the
    planned order, also when a batch throws. *)
Lemma batchLoop_log sched fuel baseUrl query year pageUrls :
  ∀ i allLinks,
    (batchLoop network sched fuel baseUrl query year pageUrls i allLinks).2
    `prefix_of` map EvFetch (drop i pageUrls).
Proof.
  induction fuel as [|fuel IH]; intros i allLinks; simpl.
  - apply prefix_nil.
  - destruct (i <? length pageUrls)%nat; [|apply prefix_nil].
    rewrite fetchBatch_by_index.
    pose proof (drop_batch pageUrls i) as Hd.
    set (batch := take BATCH_SIZE (drop i pageUrls)) in *.
    rewrite Hd, map_app.
    destruct (mapM id _) as [results|].
    + rewrite bind_Some. simpl. apply prefix_app, IH.
    + rewrite bind_None. simpl. by apply prefix_app_r.
Qed.

(** With enough fuel the batch loop ends because [i] has reached
    [pageUrls.length]: every planned page has been fetched once, and the
    links of the pages are appended in the planned order. *)
Lemma batchLoop_planned sched baseUrl origin query year pageUrls :
  url_origin baseUrl = Some origin →
  ∀ fuel i allLinks,
    (length pageUrls - i ≤ fuel * BATCH_SIZE)%nat →
    batchLoop network sched fuel baseUrl query year pageUrls i allLinks
    = (Some (allLinks
             ++ concat (map (plannedPageLinks network baseUrl origin query)
                            (drop i pageUrls))),
       map EvFetch (drop i pageUrls)).
Proof.
  intros Ho. induction fuel as [|fuel IH]; intros i allLinks Hfuel.
  - simpl. rewrite drop_ge by (simpl in Hfuel; lia).
    simpl. by rewrite app_nil_r.
  - simpl. destruct (i <? length pageUrls)%nat eqn:Hi.
    + rewrite (fetchBatch_planned _ _ origin) by done.
      rewrite bind_Some, IH by (unfold BATCH_SIZE in *; lia).
      simpl. rewrite fold_concat.
      pose proof (drop_batch pageUrls i) as Hd.
      set (batch := take BATCH_SIZE (drop i pageUrls)) in *.
      rewrite Hd, !map_app, concat_app, <- app_assoc. done.
    + apply Nat.ltb_ge in Hi. rewrite drop_ge by done.
      simpl. by rewrite app_nil_r.
Qed.

End OrchestratorFacts.

Section YearFacts.
Context {P : Platform}.
Variable network : string → option Response.

Lemma pageNumbers_length (maxPages : Z) :
  length (pageNumbers maxPages) = Z.to_nat (maxPages - 1).
Proof. unfold pageNumbers. by rewrite length_map, length_seq. Qed.

Lemma plannedPageUrls_length baseUrl year detected :
  1 ≤ detected →
  S (length (plannedPageUrls baseUrl year detected))
  = Z.to_nat (Z.min detected MAX_PAGES_ABSOLUTE_LIMIT).
Proof.
  intros Hd. unfold plannedPageUrls, MAX_PAGES_ABSOLUTE_LIMIT.
  rewrite length_map, pageNumbers_length. lia.
Qed.

(** The year loop skips a year whose first page is unusable. *)
Lemma scanYear_skip sched baseUrl query allLinks year :
  fetchPageOrNull network (page1UrlOf baseUrl year) = None →
  scanYear network sched baseUrl query allLinks year
  = (Some allLinks, [EvFetch (page1UrlOf baseUrl year)]).
Proof. intros Hf. unfold scanYear, emit. by rewrite bind_Some, Hf. Qed.

(** A year whose first page is usable, when the base url has an origin:
    the turn returns, with the links of the pages in the planned order,
    after one request per planned page and one run of the detector. *)
Lemma scanYear_planned sched baseUrl origin query allLinks year html1 :
  url_origin baseUrl = Some origin →
  fetchPageOrNull network (page1UrlOf baseUrl year) = Some html1 →
  scanYear network sched baseUrl query allLinks year
  = (Some (allLinks
           ++ uniqueLinks (pushedLinks html1 baseUrl (toLowerCase origin) query)
           ++ concat (map (plannedPageLinks network baseUrl origin query)
                          (plannedPageUrls baseUrl year (detectMaxPages html1)))),
     EvFetch (page1UrlOf baseUrl year) :: EvDetectMaxPages html1
     :: map EvFetch (plannedPageUrls baseUrl year (detectMaxPages html1))).
Proof.
  intros Ho Hf. unfold scanYear, emit, orThrow, extractLinks.
  rewrite bind_Some, Hf, Ho, !bind_Some.
  pose proof (detectMaxPages_ge_1 html1) as Hge.
  unfold plannedPageUrls, MAX_PAGES_ABSOLUTE_LIMIT in *.
  set (d := detectMaxPages html1) in *.
  assert (Hclamp : (if 50 <? d then 50 else d) = Z.min d 50).
  { destruct (50 <? d) eqn:Hlt; [apply Z.ltb_lt in Hlt|apply Z.ltb_ge in Hlt]; lia. }
  rewrite Hclamp.
  destruct (1 <? Z.min d 50) eqn:Hone.
  - rewrite (batchLoop_planned network sched baseUrl origin)
      by (done || (unfold BATCH_SIZE; lia)).
    simpl. rewrite drop_0, <- app_assoc. done.
  - apply Z.ltb_ge in Hone.
    assert (Hnil : pageNumbers (Z.min d 50) = []).
    { unfold pageNumbers. by replace (Z.to_nat (Z.min d 50 - 1)) with 0%nat by lia. }
    rewrite Hnil. simpl. by rewrite !app_nil_r.
Qed.

Lemma scanYear_fetchCount sched baseUrl query allLinks year :
  (fetchCount (scanYear network sched baseUrl query allLinks year).2 ≤ 50)%nat.
Proof.
  assert (H1 : ∀ u, fetchCount [EvFetch u] = 1%nat).
  { intros u. unfold fetchCount. by rewrite filter_cons_True. }
  assert (H0 : ∀ h, fetchCount [EvDetectMaxPages h] = 0%nat).
  { intros h. unfold fetchCount. rewrite filter_cons_False; [done|by intros []]. }
  unfold scanYear, emit, orThrow. rewrite bind_Some.
  cbn [snd]. rewrite fetchCount_app, H1.
  destruct (fetchPageOrNull network (page1UrlOf baseUrl year)) as [html1|];
    [|cbn; lia].
  destruct (extractLinks html1 baseUrl query) as [links1|].
  2:{ rewrite bind_None; cbn; lia. }
  rewrite !bind_Some. cbn [snd]. rewrite app_nil_l, fetchCount_app, H0.
  pose proof (detectMaxPages_ge_1 html1) as Hge.
  unfold MAX_PAGES_ABSOLUTE_LIMIT.
  set (d := detectMaxPages html1) in *.
  set (maxPages := if 50 <? d then 50 else d).
  assert (Hmax : maxPages ≤ 50).
  { unfold maxPages. destruct (50 <? d) eqn:Hlt; [lia|by apply Z.ltb_ge in Hlt]. }
  destruct (1 <? maxPages).
  - match goal with |- context [batchLoop ?n ?s ?f ?b ?q ?y ?l ?i ?a] =>
      pose proof (fetchCount_prefix _ _ (batchLoop_log n s f b q y l i a)) as Hp;
      set (loop := batchLoop n s f b q y l i a) in * end.
    rewrite drop_0, fetchCount_fetches, length_map, pageNumbers_length in Hp.
    lia.
  - cbn. lia.
Qed.

Lemma scanYear_schedule s1 s2 baseUrl query allLinks year :
  scanYear network s1 baseUrl query allLinks year
  = scanYear network s2 baseUrl query allLinks year.
Proof.
  unfold scanYear.
  destruct (fetchPageOrNull network (page1UrlOf baseUrl year)) as [html1|]; [|done].
  f_equal.
  destruct (extractLinks html1 baseUrl query) as [links1|]; [|done].
  unfold orThrow. rewrite !bind_Some.
  destruct (1 <? _); [|done].
  by rewrite (batchLoop_schedule network s1 s2).
Qed.

Lemma foldM_scanYear_schedule s1 s2 baseUrl query years :
  ∀ allLinks,
    foldM (scanYear network s1 baseUrl query) allLinks years
    = foldM (scanYear network s2 baseUrl query) allLinks years.
Proof.
  induction years as [|year years IH]; intros allLinks; simpl; [done|].
  rewrite (scanYear_schedule s1 s2).
  destruct (scanYear network s2 baseUrl query allLinks year) as [[a|] log]; [|done].
  rewrite !bind_Some. by rewrite IH.
Qed.

Lemma scanYear_returns sched baseUrl origin query allLinks year :
  url_origin baseUrl = Some origin →
  is_Some (scanYear network sched baseUrl query allLinks year).1.
Proof.
  intros Ho.
  destruct (fetchPageOrNull network (page1UrlOf baseUrl year)) as [html1|] eqn:Hf.
  - by rewrite (scanYear_planned _ _ origin _ _ _ html1).
  - by rewrite scanYear_skip.
Qed.

Lemma foldM_scanYear_returns sched baseUrl origin query years :
  url_origin baseUrl = Some origin →
  ∀ allLinks, is_Some (foldM (scanYear network sched baseUrl query) allLinks years).1.
Proof.
  intros Ho. induction years as [|year years IH]; intros allLinks; simpl; [done|].
  destruct (scanYear_returns sched baseUrl origin query allLinks year Ho) as [a Ha].
  destruct (scanYear network sched baseUrl query allLinks year) as [r log].
  simpl in Ha. subst r. rewrite bind_Some. simpl. apply IH.
Qed.

End YearFacts.

(** ** Properties of the crawl *)

(** C5: when the first listing page of a year is fetched with success,
    the turn of that year issues at most 50 GET requests, whatever number
    the pagination detector reports: one for the first page and one for each
    page from 2 to the detected number clamped to 50 (or the first one only,
    when the extraction throws because the base url has no origin). *)
Theorem year_fetches_at_most_50 {P : Platform} (network : string → option Response)
    (sched : Scheduler) (baseUrl query : string) (allLinks : list LinkResult)
    (year : Z) (html1 : string) :
  fetchPageOrNull network (page1UrlOf baseUrl year) = Some html1 →
  let log := (scanYear network sched baseUrl query allLinks year).2 in
  (fetchCount log ≤ 50)%nat
  ∧ fetchCount log
    = match url_origin baseUrl with
      | Some _ => Z.to_nat (Z.min (detectMaxPages html1) MAX_PAGES_ABSOLUTE_LIMIT)
      | None => 1%nat
      end
  ∧ filter isFetch log
    = EvFetch (page1UrlOf baseUrl year)
      :: match url_origin baseUrl with
         | Some _ => map EvFetch (plannedPageUrls baseUrl year (detectMaxPages html1))
         | None => []
         end.
Proof.
  intros Hf log. split; [apply scanYear_fetchCount|].
  subst log. destruct (url_origin baseUrl) as [origin|] eqn:Ho.
  - rewrite (scanYear_planned network sched baseUrl origin query allLinks year html1)
      by done.
    cbn [snd]. unfold fetchCount.
    rewrite filter_cons_True by done.
    rewrite filter_cons_False by (by intros []).
    assert (Hall : filter isFetch
                     (map EvFetch (plannedPageUrls baseUrl year (detectMaxPages html1)))
                   = map EvFetch (plannedPageUrls baseUrl year (detectMaxPages html1))).
    { induction (plannedPageUrls baseUrl year (detectMaxPages html1)) as [|u l IH];
        [done|]. rewrite map_cons, filter_cons_True by done. by rewrite IH. }
    rewrite Hall. split; [|done].
    cbn [length]. rewrite length_map.
    apply plannedPageUrls_length, detectMaxPages_ge_1.
  - unfold scanYear, emit, orThrow, extractLinks.
    rewrite bind_Some, Hf, Ho, bind_None. cbn [snd app].
    unfold fetchCount. rewrite filter_cons_True by done. done.
Qed.

Lemma year_fetches_at_most_50_witness :
  let log := (@scanYear Fixture.platform Fixture.network Fixture.lifo Fixture.site
                "dhandoraa" [] 2025).2 in
  (fetchCount log ≤ 50)%nat
  ∧ fetchCount log
    = match @url_origin Fixture.platform Fixture.site with
      | Some _ => Z.to_nat (Z.min (@detectMaxPages Fixture.platform Fixture.page2025)
                                  MAX_PAGES_ABSOLUTE_LIMIT)
      | None => 1%nat
      end
  ∧ filter isFetch log
    = EvFetch (page1UrlOf Fixture.site 2025)
      :: match @url_origin Fixture.platform Fixture.site with
         | Some _ => map EvFetch (plannedPageUrls Fixture.site 2025
                                    (@detectMaxPages Fixture.platform Fixture.page2025))
         | None => []
         end.
Proof.
  apply (@year_fetches_at_most_50 Fixture.platform Fixture.network Fixture.lifo
           Fixture.site "dhandoraa" [] 2025 Fixture.page2025).
  vm_compute. reflexivity.
Defined.

(** C6: when the first listing page of a year is unusable or in error,
    the turn of that year leaves the accumulated links as they are, issues
    no other request, does not run the pagination detector, and the loop
    goes on with the next year. *)
Theorem unusable_first_page_skips_year {P : Platform}
    (network : string → option Response) (sched : Scheduler)
    (baseUrl query : string) (allLinks : list LinkResult) (year : Z)
    (rest : list Z) :
  firstPageUnusable network (page1UrlOf baseUrl year) →
  scanYear network sched baseUrl query allLinks year
  = (Some allLinks, [EvFetch (page1UrlOf baseUrl year)])
  ∧ filter isDetect (scanYear network sched baseUrl query allLinks year).2 = []
  ∧ fetchCount (scanYear network sched baseUrl query allLinks year).2 = 1%nat
  ∧ foldM (scanYear network sched baseUrl query) allLinks (year :: rest)
    = ((foldM (scanYear network sched baseUrl query) allLinks rest).1,
       EvFetch (page1UrlOf baseUrl year)
       :: (foldM (scanYear network sched baseUrl query) allLinks rest).2).
Proof.
  intros Hu%fetchPageOrNull_unusable.
  pose proof (scanYear_skip network sched baseUrl query allLinks year Hu) as Hs.
  split; [exact Hs|].
  cbn [foldM]. rewrite Hs. cbn [snd].
  split; [by rewrite filter_cons_False by (by intros [])|].
  split; [unfold fetchCount; by rewrite filter_cons_True|].
  by rewrite bind_Some.
Qed.

Lemma unusable_first_page_skips_year_witness :
  @scanYear Fixture.platform Fixture.network Fixture.fifo Fixture.site "dhandoraa"
     [mkLink "kept" "https://example.com/kept-movie/"] 2024
  = (Some [mkLink "kept" "https://example.com/kept-movie/"],
     [EvFetch (page1UrlOf Fixture.site 2024)])
  ∧ filter isDetect
      (@scanYear Fixture.platform Fixture.network Fixture.fifo Fixture.site "dhandoraa"
         [mkLink "kept" "https://example.com/kept-movie/"] 2024).2 = []
  ∧ fetchCount
      (@scanYear Fixture.platform Fixture.network Fixture.fifo Fixture.site "dhandoraa"
         [mkLink "kept" "https://example.com/kept-movie/"] 2024).2 = 1%nat
  ∧ foldM (@scanYear Fixture.platform Fixture.network Fixture.fifo Fixture.site
             "dhandoraa")
          [mkLink "kept" "https://example.com/kept-movie/"] [2024; 2023]
    = ((foldM (@scanYear Fixture.platform Fixture.network Fixture.fifo Fixture.site
                 "dhandoraa")
              [mkLink "kept" "https://example.com/kept-movie/"] [2023]).1,
       EvFetch (page1UrlOf Fixture.site 2024)
       :: (foldM (@scanYear Fixture.platform Fixture.network Fixture.fifo Fixture.site
                    "dhandoraa")
                 [mkLink "kept" "https://example.com/kept-movie/"] [2023]).2).
Proof.
  apply (@unusable_first_page_skips_year Fixture.platform Fixture.network
           Fixture.fifo Fixture.site "dhandoraa"
           [mkLink "kept" "https://example.com/kept-movie/"] 2024 [2023]).
  right. exists (mkResponse false "Not Found").
  split; [vm_compute; reflexivity|]. left. reflexivity.
Defined.

(** C8: for an input that the schema accepts, [searchMovieLinks] returns,
    and the sequence it returns has at most [maxResults] elements, where
    [maxResults] is 10 when it is omitted and lies between 1 and 50: the
    sequence never has more than 50 elements. *)
Theorem result_size_bounded {P : Platform} (network : string → option Response)
    (sched : Scheduler) (currentYear : Z) (params : SearchParams) :
  SearchInput params = true →
  ∃ result,
    (searchMovieLinks network sched currentYear params).1 = Some result
    ∧ (length result ≤ Z.to_nat (default 10%Z (maxResults params)))%nat
    ∧ 1 ≤ default 10 (maxResults params) ≤ 50
    ∧ (length result ≤ 50)%nat.
Proof.
  unfold SearchInput. intros Hv.
  apply andb_prop in Hv as [Hv Hmax]. apply andb_prop in Hv as [Hurl _].
  apply bool_decide_eq_true in Hurl as [origin Ho].
  assert (Hrange : 1 ≤ default 10 (maxResults params) ≤ 50).
  { destruct (maxResults params) as [m|]; simpl; [|lia].
    apply andb_prop in Hmax as [H1 H2].
    apply Z.leb_le in H1, H2. lia. }
  unfold searchMovieLinks.
  destruct (foldM_scanYear_returns network sched (baseUrl params) origin
              (trim (query params)) (yearsToScan currentYear) Ho []) as [allLinks Ha].
  destruct (foldM _ _ _) as [r log]. simpl in Ha. subst r.
  rewrite bind_Some. cbn [fst ret].
  eexists. split; [reflexivity|].
  pose proof (slice0_length (uniqueLinks allLinks) (default 10 (maxResults params)))
    as Hlen.
  split; [apply Hlen; lia|]. split; [done|].
  etransitivity; [apply Hlen; lia|]. lia.
Qed.

Lemma result_size_bounded_witness :
  ∃ result,
    (@searchMovieLinks Fixture.platform Fixture.network Fixture.lifo 2025
       (mkParams Fixture.site "dhandoraa" (Some 2))).1 = Some result
    ∧ (length result
       ≤ Z.to_nat (default 10%Z (maxResults (mkParams Fixture.site "dhandoraa" (Some 2%Z)))))%nat
    ∧ 1 ≤ default 10 (maxResults (mkParams Fixture.site "dhandoraa" (Some 2))) ≤ 50
    ∧ (length result ≤ 50)%nat.
Proof.
  apply (@result_size_bounded Fixture.platform Fixture.network Fixture.lifo 2025
           (mkParams Fixture.site "dhandoraa" (Some 2))).
  vm_compute. reflexivity.
Defined.

(** C9: for a fixed network, the outcome of [searchMovieLinks], result and
    log of requests, is the same for any two orders in which the fetches of
    the batches complete: a batch gives the links of its pages by index, in
    the order of its page urls, and the turn of a year appends, after the
    links of the first page, the links of the pages 2, 3, ... in the order
    of the planned page urls. *)
Theorem completion_order_irrelevant {P : Platform}
    (network : string → option Response) (sched1 sched2 : Scheduler)
    (currentYear : Z) (params : SearchParams) :
  searchMovieLinks network sched1 currentYear params
  = searchMovieLinks network sched2 currentYear params
  ∧ (∀ baseUrl query year i batch,
       fetchBatch network sched1 baseUrl query year i batch
       = (mapM id (map (pageLinks network baseUrl query) batch), map EvFetch batch))
  ∧ (∀ baseUrl query year allLinks,
       match url_origin baseUrl,
             fetchPageOrNull network (page1UrlOf baseUrl year) with
       | Some origin, Some html1 =>
           (scanYear network sched1 baseUrl query allLinks year).1
           = Some (allLinks
                   ++ uniqueLinks (pushedLinks html1 baseUrl (toLowerCase origin) query)
                   ++ concat (map (plannedPageLinks network baseUrl origin query)
                                  (plannedPageUrls baseUrl year (detectMaxPages html1))))
       | _, _ => True
       end).
Proof.
  split; [|split].
  - unfold searchMovieLinks.
    by rewrite (foldM_scanYear_schedule network sched1 sched2).
  - intros. apply fetchBatch_by_index.
  - intros baseUrl query year allLinks.
    destruct (url_origin baseUrl) as [origin|] eqn:Ho; [|done].
    destruct (fetchPageOrNull network (page1UrlOf baseUrl year)) as [html1|] eqn:Hf;
      [|done].
    by rewrite (scanYear_planned network sched1 baseUrl origin query allLinks year html1).
Qed.

(** * Further properties *)

(** ** More on strings *)

Section MoreStringFacts.

Lemma lowerChar_idem (c : ascii) : lowerChar (lowerChar c) = lowerChar c.
Proof. destruct c as [[] [] [] [] [] [] [] []]; reflexivity. Qed.

Lemma toLowerCase_idem (s : string) : toLowerCase (toLowerCase s) = toLowerCase s.
Proof. induction s as [|c s IH]; simpl; [done|]. by rewrite lowerChar_idem, IH. Qed.

Lemma trimStart_idem (s : string) : trimStart (trimStart s) = trimStart s.
Proof.
  induction s as [|c s IH]; simpl; [done|].
  destruct (isSpace c) eqn:Hc; [done|]. simpl. by rewrite Hc.
Qed.

Lemma trimEnd_idem (s : string) : trimEnd (trimEnd s) = trimEnd s.
Proof.
  induction s as [|c s IH]; simpl; [done|].
  destruct (isSpace c && isEmpty (trimEnd s)) eqn:Hc; [done|].
  simpl. by rewrite IH, Hc.
Qed.

(** A string that does not begin with white space. *)
Lemma trimStart_trimEnd_fixed (s : string) :
  trimStart s = s → trimStart (trimEnd s) = trimEnd s.
Proof.
  destruct s as [|c s]; simpl; [done|].
  destruct (isSpace c) eqn:Hc.
  - intros Hs. exfalso.
    assert (Hlen : ∀ t, (String.length (trimStart t) ≤ String.length t)%nat).
    { induction t as [|d t IH]; simpl; [lia|].
      destruct (isSpace d); simpl; lia. }
    pose proof (Hlen s) as Hl. rewrite Hs in Hl. simpl in Hl. lia.
  - intros _. simpl. by rewrite Hc.
Qed.

Lemma trim_idem (s : string) : trim (trim s) = trim s.
Proof.
  unfold trim.
  rewrite (trimStart_trimEnd_fixed (trimStart s)) by apply trimStart_idem.
  apply trimEnd_idem.
Qed.

End MoreStringFacts.

(** ** More on the deduplicator *)

Section MoreDedupe.

Lemma keepFresh_distinct seen links :
  NoDup (map url links) →
  (∀ l, l ∈ links → url l ∉ seen) →
  keepFresh seen links = links.
Proof.
  revert seen. induction links as [|x rest IH]; intros seen Hnd Hout; simpl; [done|].
  apply NoDup_cons in Hnd as [Hx Hnd].
  destruct (decide (url x ∈ seen)) as [Hin|_].
  { exfalso. apply (Hout x); [by left|done]. }
  f_equal. apply IH; [done|].
  intros l Hl [Hs%elem_of_singleton|Hs]%elem_of_union.
  - apply Hx. rewrite <- Hs. apply list_elem_of_fmap. by exists l.
  - apply (Hout l); [by right|done].
Qed.

Lemma keepFresh_urls seen links u :
  u ∈ map url (keepFresh seen links) ↔ u ∈ map url links ∧ u ∉ seen.
Proof.
  revert seen. induction links as [|x rest IH]; intros seen; simpl.
  - split; [by intros ?%elem_of_nil|by intros [?%elem_of_nil _]].
  - destruct (decide (url x ∈ seen)) as [Hin|Hout].
    + rewrite IH. split.
      * intros [H1 H2]. split; [by right|done].
      * intros [[->|H1]%elem_of_cons H2]; [done|by split].
    + simpl. rewrite !elem_of_cons, IH. split.
      * intros [->|[H1 H2]]; [by split; [left|]|].
        split; [by right|]. intros Hs. apply H2, elem_of_union. by right.
      * intros [[->|H1] H2]; [by left|].
        destruct (decide (u = url x)) as [->|Hne]; [by left|].
        right. split; [done|].
        intros [Hs%elem_of_singleton|Hs]%elem_of_union; done.
Qed.

Lemma keepFresh_again seen seen' links :
  seen' ⊆ seen → keepFresh seen (keepFresh seen' links) = keepFresh seen links.
Proof.
  revert seen seen'.
  induction links as [|x rest IH]; intros seen seen' Hsub; simpl; [done|].
  destruct (decide (url x ∈ seen')) as [Hin'|Hout'].
  - destruct (decide (url x ∈ seen)) as [_|Hout]; [by apply IH|].
    exfalso. apply Hout. by apply Hsub.
  - simpl. destruct (decide (url x ∈ seen)) as [Hin|Hout].
    + apply IH. intros u [Hu%elem_of_singleton|Hu]%elem_of_union;
        [by subst|by apply Hsub].
    + f_equal. apply IH. intros u [Hu%elem_of_singleton|Hu]%elem_of_union.
      * apply elem_of_union. left. by apply elem_of_singleton.
      * apply elem_of_union. right. by apply Hsub.
Qed.

Lemma keepFresh_app seen links1 links2 :
  keepFresh seen (links1 ++ links2)
  = keepFresh seen links1 ++ keepFresh (urlSet links1 ∪ seen) links2.
Proof.
  revert seen. induction links1 as [|x rest IH]; intros seen; simpl.
  - f_equal. unfold urlSet. simpl. apply leibniz_equiv.
    intros u. rewrite elem_of_union. split; [by right|].
    intros [Hu|Hu]; [by apply elem_of_empty in Hu|done].
  - assert (Hset : ∀ S : gset string,
              urlSet rest ∪ ({[url x]} ∪ S) = urlSet (x :: rest) ∪ S).
    { intros S. unfold urlSet. simpl. apply leibniz_equiv. intros u.
      rewrite !elem_of_union. tauto. }
    destruct (decide (url x ∈ seen)) as [Hin|Hout].
    + rewrite IH. f_equal. f_equal. rewrite <- Hset.
      apply leibniz_equiv. intros u. rewrite !elem_of_union, elem_of_singleton.
      split; [tauto|]. intros [H|[->|H]]; tauto.
    + simpl. rewrite IH. by rewrite Hset.
Qed.

Lemma urlSet_elem links u : u ∈ urlSet links ↔ u ∈ map url links.
Proof. unfold urlSet. apply elem_of_list_to_set. Qed.

Lemma urlSet_uniqueLinks links : urlSet (uniqueLinks links) = urlSet links.
Proof.
  apply leibniz_equiv. intros u.
  rewrite !urlSet_elem, uniqueLinks_keepFresh, keepFresh_urls.
  split; [tauto|]. intros H. split; [done|]. apply not_elem_of_empty.
Qed.

Lemma keepFresh_concat_pages (pages : list (list LinkResult)) :
  ∀ seen, keepFresh seen (concat (map uniqueLinks pages))
          = keepFresh seen (concat pages).
Proof.
  induction pages as [|page pages IH]; intros seen; simpl; [done|].
  rewrite !keepFresh_app, urlSet_uniqueLinks, IH. f_equal.
  rewrite uniqueLinks_keepFresh. apply keepFresh_again.
  intros u Hu. by apply elem_of_empty in Hu.
Qed.

Lemma find_hasUrl_NoDup (links : list LinkResult) l :
  NoDup (map url links) → l ∈ links → find (hasUrl (url l)) links = Some l.
Proof.
  induction links as [|x rest IH]; intros Hnd Hin; [by apply elem_of_nil in Hin|].
  apply NoDup_cons in Hnd as [Hx Hnd]. simpl. unfold hasUrl at 1.
  destruct (String.eqb_spec (url x) (url l)) as [He|Hne].
  - apply elem_of_cons in Hin as [->|Hin]; [done|].
    exfalso. apply Hx. rewrite He. apply list_elem_of_fmap. by exists l.
  - apply elem_of_cons in Hin as [->|Hin]; [done|]. by apply IH.
Qed.

End MoreDedupe.

(** X1: deduplicating twice gives what deduplicating once gives. *)
Theorem uniqueLinks_idempotent (links : list LinkResult) :
  uniqueLinks (uniqueLinks links) = uniqueLinks links.
Proof.
  rewrite (uniqueLinks_keepFresh (uniqueLinks links)).
  apply keepFresh_distinct.
  - rewrite uniqueLinks_keepFresh. apply keepFresh_NoDup.
  - intros l _. apply not_elem_of_empty.
Qed.

(** X2: a list in which no two links have the same url is returned as it
    is. *)
Theorem uniqueLinks_distinct_unchanged (links : list LinkResult) :
  NoDup (map url links) → uniqueLinks links = links.
Proof.
  intros Hnd. rewrite uniqueLinks_keepFresh.
  apply keepFresh_distinct; [done|]. intros l _. apply not_elem_of_empty.
Qed.

Lemma uniqueLinks_distinct_unchanged_witness :
  uniqueLinks [mkLink "A" "u1"; mkLink "A" "u2"; mkLink "B" "u3"]
  = [mkLink "A" "u1"; mkLink "A" "u2"; mkLink "B" "u3"].
Proof.
  apply (uniqueLinks_distinct_unchanged
           [mkLink "A" "u1"; mkLink "A" "u2"; mkLink "B" "u3"]).
  simpl. repeat (apply NoDup_cons; split;
    [rewrite ?elem_of_cons, elem_of_nil; intros H; repeat destruct H as [H|H];
     discriminate || done|]).
  apply NoDup_nil. done.
Defined.

(** X3: deduplicating each page and then the whole, as the pipeline does,
    gives what deduplicating the whole at once gives. *)
Theorem uniqueLinks_pages_then_all (pages : list (list LinkResult)) :
  uniqueLinks (concat (map uniqueLinks pages)) = uniqueLinks (concat pages).
Proof. rewrite !uniqueLinks_keepFresh. apply keepFresh_concat_pages. Qed.

(** X4: the result has exactly the urls of the input, each once: its
    length is the number of distinct urls, at most the length of the
    input. *)
Theorem uniqueLinks_urls (links : list LinkResult) :
  (∀ u, u ∈ map url (uniqueLinks links) ↔ u ∈ map url links)
  ∧ length (uniqueLinks links) = size (urlSet links)
  ∧ (length (uniqueLinks links) ≤ length links)%nat.
Proof.
  split; [|split].
  - intros u. rewrite uniqueLinks_keepFresh, keepFresh_urls.
    split; [tauto|]. intros H. split; [done|]. apply not_elem_of_empty.
  - rewrite <- urlSet_uniqueLinks. unfold urlSet.
    rewrite size_list_to_set, length_map; [done|].
    rewrite uniqueLinks_keepFresh. apply keepFresh_NoDup.
  - apply sublist_length. rewrite uniqueLinks_keepFresh. apply keepFresh_sublist.
Qed.

(** ** More on the extractor *)

Section MoreExtractorFacts.
Context {P : Platform}.

Lemma queryWordsOf_lower (query : string) :
  queryWordsOf (toLowerCase query) = queryWordsOf query.
Proof. unfold queryWordsOf. by rewrite toLowerCase_idem. Qed.

Lemma queryWordsOf_trim (query : string) :
  queryWordsOf (trim query) = queryWordsOf query.
Proof. unfold queryWordsOf. by rewrite <- trim_toLowerCase, trim_idem. Qed.

Lemma extractLinks_words html baseUrl query1 query2 :
  queryWordsOf query1 = queryWordsOf query2 →
  extractLinks html baseUrl query1 = extractLinks html baseUrl query2.
Proof. intros Hw. unfold extractLinks, pushedLinks. by rewrite Hw. Qed.

Lemma everyWordIn_spec (queryWords : list string) (hay : string) :
  everyWordIn queryWords hay = true ↔ ∀ w, w ∈ queryWords → includes hay w = true.
Proof.
  unfold everyWordIn. rewrite forallb_forall.
  split; intros H w Hw; apply H; by apply list_elem_of_In.
Qed.

Lemma everyWordIn_subset (words1 words2 : list string) (hay : string) :
  (∀ w, w ∈ words1 → w ∈ words2) →
  everyWordIn words2 hay = true → everyWordIn words1 hay = true.
Proof. rewrite !everyWordIn_spec. intros Hsub H w Hw. by apply H, Hsub. Qed.

Lemma matchesQuery_subset (words1 words2 : list string) (c : LinkResult) :
  (∀ w, w ∈ words1 → w ∈ words2) →
  matchesQuery words2 c = true → matchesQuery words1 c = true.
Proof.
  unfold matchesQuery. intros Hsub [H|H]%orb_prop.
  - by rewrite (everyWordIn_subset words1 words2).
  - rewrite (everyWordIn_subset words1 words2 (toLowerCase (url c))) by done.
    apply orb_true_r.
Qed.

Lemma matchesQuery_same_words (words1 words2 : list string) (c : LinkResult) :
  (∀ w, w ∈ words1 ↔ w ∈ words2) →
  matchesQuery words1 c = matchesQuery words2 c.
Proof.
  intros Hsame.
  destruct (matchesQuery words1 c) eqn:H1, (matchesQuery words2 c) eqn:H2; try done.
  - rewrite (matchesQuery_subset words2 words1) in H2; [done| |done].
    intros w. apply Hsame.
  - rewrite (matchesQuery_subset words1 words2) in H1; [done| |done].
    intros w. apply Hsame.
Qed.

Lemma extractLinks_shape html baseUrl query links l :
  extractLinks html baseUrl query = Some links → l ∈ links →
  ∃ origin element href,
    url_origin baseUrl = Some origin
    ∧ element ∈ select_listing_anchors html
    ∧ a_href element = Some href
    ∧ normalizeUrl baseUrl href = Some (url l)
    ∧ title l = trim (a_text element).
Proof.
  intros He Hl.
  destruct (extractLinks_elem _ _ _ _ _ He Hl)
    as (origin & element & Ho & Hin & (href & Hp) & _).
  exists origin, element, href. tauto.
Qed.

End MoreExtractorFacts.

(** X5: what the origin check of [extractLinks] ensures: the lowercased
    url of every returned link begins with the lowercased origin of the base
    url. *)
Theorem extractLinks_urls_start_with_origin {P : Platform}
    (html baseUrl query : string) (links : list LinkResult) :
  extractLinks html baseUrl query = Some links →
  ∃ origin, url_origin baseUrl = Some origin
    ∧ ∀ l, l ∈ links →
        startsWith (toLowerCase (url l)) (toLowerCase origin) = true.
Proof.
  intros He. pose proof He as He'. unfold extractLinks in He'.
  destruct (url_origin baseUrl) as [origin|] eqn:Ho; [|done].
  exists origin. split; [done|]. intros l Hl.
  destruct (extractLinks_origin_prefix _ _ _ _ _ He Hl) as (origin' & Ho' & Hp).
  congruence.
Qed.

Lemma extractLinks_urls_start_with_origin_witness :
  ∃ origin, @url_origin Fixture.platform Fixture.site = Some origin
    ∧ ∀ l, l ∈ [ mkLink "Dhandoraa 2025 Movie"
                        "https://example.com/dhandoraa-2025-tamil-movie/";
                 mkLink "Dhandoraa HD"
                        "https://example.com.evil.net/dhandoraa-2025-tamil-movie/" ] →
        startsWith (toLowerCase (url l)) (toLowerCase origin) = true.
Proof.
  apply (@extractLinks_urls_start_with_origin Fixture.platform Fixture.page2025
           Fixture.site "Dhandoraa").
  vm_compute. reflexivity.
Defined.

(** X6: the links [extractLinks] returns have pairwise different urls;
    each has the resolved [href] of an anchor of the listing as its url and
    the trimmed text of that anchor as its title; the title is not empty and
    has no white space at either end, and the url is not empty. *)
Theorem extractLinks_links_well_formed {P : Platform}
    (html baseUrl query : string) (links : list LinkResult) :
  extractLinks html baseUrl query = Some links →
  NoDup (map url links)
  ∧ ∀ l, l ∈ links →
      title l ≠ "" ∧ trim (title l) = title l ∧ url l ≠ ""
      ∧ ∃ element href,
          element ∈ select_listing_anchors html
          ∧ a_href element = Some href
          ∧ normalizeUrl baseUrl href = Some (url l)
          ∧ title l = trim (a_text element).
Proof.
  intros He. split.
  - unfold extractLinks in He. destruct (url_origin baseUrl); [|done].
    injection He as <-. rewrite uniqueLinks_keepFresh. apply keepFresh_NoDup.
  - intros l Hl.
    destruct (extractLinks_elem _ _ _ _ _ He Hl)
      as (origin & element & Ho & Hin & (href & Hp) & _).
    destruct Hp as (Hh & Hne & Ht & Htne & Hn & Hs & Hd & Ha).
    split; [intros Hnil; by rewrite Hnil in Htne|].
    split; [rewrite Ht; apply trim_idem|].
    split.
    + intros Hnil. rewrite Hnil in Ha. simpl in Ha.
      destruct Ha as [Ha|Ha]; discriminate Ha.
    + by exists element, href.
Qed.

Lemma extractLinks_links_well_formed_witness :
  NoDup (map url [ mkLink "Alappuzha Gymkhana (2025) HD"
                     "https://example.com/alappuzha-gymkhana-2025-tamil-movie/" ])
  ∧ ∀ l, l ∈ [ mkLink "Alappuzha Gymkhana (2025) HD"
                 "https://example.com/alappuzha-gymkhana-2025-tamil-movie/" ] →
      title l ≠ "" ∧ trim (title l) = title l ∧ url l ≠ ""
      ∧ ∃ element href,
          element ∈ Fixture.listingAnchors Fixture.page2025
          ∧ a_href element = Some href
          ∧ Fixture.resolve href Fixture.site = Some (url l)
          ∧ title l = trim (a_text element).
Proof.
  apply (@extractLinks_links_well_formed Fixture.platform Fixture.page2025
           Fixture.site "gymkhana").
  vm_compute. reflexivity.
Defined.

(** X7: [extractLinks] does not see the case of the query nor white space
    around it: the lowercased query and the trimmed query give the result of
    the query itself. *)
Theorem extractLinks_query_case_and_padding {P : Platform}
    (html baseUrl query : string) :
  extractLinks html baseUrl (toLowerCase query) = extractLinks html baseUrl query
  ∧ extractLinks html baseUrl (trim query) = extractLinks html baseUrl query.
Proof.
  split; apply extractLinks_words;
    [apply queryWordsOf_lower|apply queryWordsOf_trim].
Qed.

(** X8: two queries with the same words, in any order and with any
    repetition, give the same result. *)
Theorem extractLinks_word_order {P : Platform} (html baseUrl query1 query2 : string) :
  (∀ w, w ∈ queryWordsOf query1 ↔ w ∈ queryWordsOf query2) →
  extractLinks html baseUrl query1 = extractLinks html baseUrl query2.
Proof.
  intros Hsame. unfold extractLinks, pushedLinks.
  destruct (url_origin baseUrl) as [origin|]; [|done].
  do 2 f_equal.
  induction (select_listing_anchors html) as [|a l IH]; csimpl; [done|].
  rewrite IH, !anchorLink_candidate.
  destruct (anchorCandidate baseUrl (toLowerCase origin) a) as [c|]; [|done].
  by rewrite (matchesQuery_same_words _ _ c Hsame).
Qed.

Lemma extractLinks_word_order_witness :
  @extractLinks Fixture.platform Fixture.page2025 Fixture.site "Gymkhana Alappuzha"
  = @extractLinks Fixture.platform Fixture.page2025 Fixture.site
      "alappuzha  gymkhana alappuzha".
Proof.
  apply (@extractLinks_word_order Fixture.platform Fixture.page2025 Fixture.site
           "Gymkhana Alappuzha" "alappuzha  gymkhana alappuzha").
  intros w.
  replace (queryWordsOf "Gymkhana Alappuzha") with ["gymkhana"; "alappuzha"]
    by (vm_compute; reflexivity).
  replace (queryWordsOf "alappuzha  gymkhana alappuzha")
    with ["alappuzha"; "gymkhana"; "alappuzha"] by (vm_compute; reflexivity).
  rewrite !elem_of_cons, !elem_of_nil. tauto.
Defined.

(** X9: a query with more words never finds more: when every word of
    [query1] is a word of [query2], the url of every link found for [query2]
    is the url of a link found for [query1]. *)
Theorem extractLinks_more_words_fewer_links {P : Platform}
    (html baseUrl query1 query2 : string) (links2 : list LinkResult) :
  (∀ w, w ∈ queryWordsOf query1 → w ∈ queryWordsOf query2) →
  extractLinks html baseUrl query2 = Some links2 →
  ∃ links1,
    extractLinks html baseUrl query1 = Some links1
    ∧ ∀ l, l ∈ links2 → ∃ l', l' ∈ links1 ∧ url l' = url l.
Proof.
  intros Hsub He2. unfold extractLinks in *.
  destruct (url_origin baseUrl) as [origin|]; [|done].
  injection He2 as <-. eexists. split; [reflexivity|].
  intros l Hl%uniqueLinks_elem.
  apply uniqueLinks_url_kept.
  apply pushedLinks_elem in Hl as (element & Hin & Hc & Hm).
  apply pushedLinks_elem. exists element. split; [done|]. split; [done|].
  by apply (matchesQuery_subset _ (queryWordsOf query2)).
Qed.

Lemma extractLinks_more_words_fewer_links_witness :
  ∃ links1,
    @extractLinks Fixture.platform Fixture.page2025 Fixture.site "dhandoraa"
    = Some links1
    ∧ ∀ l, l ∈ [ mkLink "Dhandoraa 2025 Movie"
                        "https://example.com/dhandoraa-2025-tamil-movie/";
                 mkLink "Dhandoraa HD"
                        "https://example.com.evil.net/dhandoraa-2025-tamil-movie/" ] →
           ∃ l', l' ∈ links1 ∧ url l' = url l.
Proof.
  apply (@extractLinks_more_words_fewer_links Fixture.platform Fixture.page2025
           Fixture.site "dhandoraa" "dhandoraa movie").
  - intros w.
    replace (queryWordsOf "dhandoraa") with ["dhandoraa"] by (vm_compute; reflexivity).
    replace (queryWordsOf "dhandoraa movie") with ["dhandoraa"; "movie"]
      by (vm_compute; reflexivity).
    rewrite !elem_of_cons, !elem_of_nil. tauto.
  - vm_compute. reflexivity.
Defined.

(** ** The pagination detector *)

Section DetectFacts.
Context {P : Platform}.



End DetectFacts.



Section PageParamFacts.
Import PageParam.

Lemma includes_here (s w : string) : startsWith s w = true → includes s w = true.
Proof. intros H. destruct s; simpl in *; by rewrite H. Qed.

Lemma includes_later (c : ascii) (s w : string) :
  includes s w = true → includes (String c s) w = true.
Proof. intros H. simpl. rewrite H. apply orb_true_r. Qed.

Lemma startsWith_takeDigits (s : string) : startsWith s (takeDigits s) = true.
Proof.
  induction s as [|c s IH]; simpl; [done|].
  destruct (isDigit c); simpl; [|done]. by rewrite Ascii.eqb_refl.
Qed.

Lemma takeDigits_digits (s : string) :
  forallb isDigit (list_ascii_of_string (takeDigits s)) = true.
Proof.
  induction s as [|c s IH]; simpl; [done|].
  destruct (isDigit c) eqn:Hc; simpl; [|done]. by rewrite Hc.
Qed.

Lemma startsWith_append (s p q : string) :
  startsWith s p = true →
  startsWith (dropChars (String.length p) s) q = true →
  startsWith s (p +:+ q) = true.
Proof.
  revert s. induction p as [|b p IH]; intros s; simpl.
  - intros _ H. by destruct s.
  - destruct s as [|a s]; simpl; [done|].
    destruct (Ascii.eqb a b); [|done]. apply IH.
Qed.

Lemma startsWith_append_inv (s p q : string) :
  startsWith s (p +:+ q) = true →
  startsWith s p = true ∧ startsWith (dropChars (String.length p) s) q = true.
Proof.
  revert s. induction p as [|b p IH]; intros s; simpl.
  - intros H. split; by destruct s.
  - destruct s as [|a s]; simpl; [done|].
    destruct (Ascii.eqb a b); [|done]. apply IH.
Qed.

Lemma parseInt10_fold_nonneg (chars : list ascii) : ∀ n,
  0 ≤ n → 0 ≤ fold_left (fun n c => 10 * n + Z.of_N (code c - 48)) chars n.
Proof.
  induction chars as [|c chars IH]; intros n Hn; simpl; [done|].
  apply IH. lia.
Qed.

Lemma matchQuery_cons (c : ascii) (rest : string) :
  matchQuery (String c rest)
  = if isQueryMark c && startsWith rest "page="
       && negb (isEmpty (takeDigits (dropChars 5 rest)))
    then Some (takeDigits (dropChars 5 rest))
    else matchQuery rest.
Proof. reflexivity. Qed.

Lemma matchQuery_skip (pre s : string) :
  noQueryMark pre = true → matchQuery (pre +:+ s) = matchQuery s.
Proof.
  unfold noQueryMark. induction pre as [|c pre IH]; [done|].
  cbn [list_ascii_of_string forallb].
  intros [Hc Hpre]%andb_prop. apply negb_true_iff in Hc.
  change (String c pre +:+ s) with (String c (pre +:+ s)).
  rewrite matchQuery_cons, Hc. simpl. by apply IH.
Qed.

Lemma string_of_uint_digits (d : Decimal.uint) :
  takeDigits (NilEmpty.string_of_uint d) = NilEmpty.string_of_uint d
  ∧ noQueryMark (NilEmpty.string_of_uint d) = true.
Proof.
  unfold noQueryMark.
  induction d as [|d [IH1 IH2]|d [IH1 IH2]|d [IH1 IH2]|d [IH1 IH2]|d [IH1 IH2]
                  |d [IH1 IH2]|d [IH1 IH2]|d [IH1 IH2]|d [IH1 IH2]|d [IH1 IH2]];
    simpl; [done|..]; by rewrite ?IH1, ?IH2.
Qed.

Lemma string_of_uint_value (d : Decimal.uint) : ∀ acc,
  fold_left (fun n c => 10 * n + Z.of_N (code c - 48))
            (list_ascii_of_string (NilEmpty.string_of_uint d)) acc
  = uintValue acc d.
Proof.
  induction d as [|d IH|d IH|d IH|d IH|d IH|d IH|d IH|d IH|d IH|d IH];
    intros acc; simpl; [done|..]; rewrite IH; f_equal; lia.
Qed.

Lemma uintValue_pos (d : Decimal.uint) : ∀ acc : positive,
  uintValue (Z.pos acc) d = Z.pos (Pos.of_uint_acc d acc).
Proof.
  induction d as [|d IH|d IH|d IH|d IH|d IH|d IH|d IH|d IH|d IH|d IH];
    intros acc; simpl; [done|..];
    match goal with
    | |- uintValue ?z _ = Z.pos (Pos.of_uint_acc _ ?p) =>
        replace z with (Z.pos p) by lia; apply IH
    end.
Qed.

Lemma uintValue_0 (d : Decimal.uint) : uintValue 0 d = Z.of_N (Pos.of_uint d).
Proof.
  induction d as [|d IH|d IH|d IH|d IH|d IH|d IH|d IH|d IH|d IH|d IH];
    simpl; [done|exact IH|..];
    match goal with
    | |- uintValue ?z _ = _ =>
        let k := eval compute in (Z.to_pos z) in
        change z with (Z.pos k); apply uintValue_pos
    end.
Qed.

Lemma ofZ_nonneg (p : Z) :
  0 ≤ p →
  ∃ d, ofZ p = NilEmpty.string_of_uint d ∧ d ≠ Decimal.Nil ∧ uintValue 0 d = p.
Proof.
  intros Hp. destruct p as [|q|q]; [| |lia].
  - exists (Decimal.D0 Decimal.Nil). by repeat split.
  - exists (Pos.to_uint q).
    assert (Hne : Pos.to_uint q ≠ Decimal.Nil).
    { intros Hnil. pose proof (DecimalPos.Unsigned.of_to q) as Hof.
      rewrite Hnil in Hof. discriminate Hof. }
    split; [|split; [done|]].
    + unfold ofZ, Z.to_int, NilZero.string_of_int, NilZero.string_of_uint.
      by destruct (Pos.to_uint q).
    + by rewrite uintValue_0, DecimalPos.Unsigned.of_to.
Qed.

Lemma ofZ_noQueryMark (n : Z) : noQueryMark (ofZ n) = true.
Proof.
  unfold ofZ, NilZero.string_of_int, NilZero.string_of_uint.
  destruct (Z.to_int n) as [d|d].
  - destruct d; try apply string_of_uint_digits. done.
  - assert (H : noQueryMark (String "-"
        match d with Decimal.Nil => "0" | _ => NilEmpty.string_of_uint d end)
        = noQueryMark match d with Decimal.Nil => "0"
                      | _ => NilEmpty.string_of_uint d end) by reflexivity.
    rewrite H. destruct d; try apply string_of_uint_digits. done.
Qed.

Lemma noQueryMark_app (s t : string) :
  noQueryMark s = true → noQueryMark t = true → noQueryMark (s +:+ t) = true.
Proof.
  unfold noQueryMark. induction s as [|c s IH]; simpl; [done|].
  intros [Hc Hs]%andb_prop Ht. rewrite Hc. simpl. by apply IH.
Qed.

End PageParamFacts.

(** X11: when [href.match(/[?&]page=(\d+)/)] matches, the group is a
    non-empty string of digits that stands in the [href] right after
    [?page=] or [&page=], and [parseInt] of it is not negative. *)
Theorem matchQuery_sound (href digits : string) :
  PageParam.matchQuery href = Some digits →
  digits ≠ ""
  ∧ forallb PageParam.isDigit (list_ascii_of_string digits) = true
  ∧ (includes href ("?page=" +:+ digits) = true
     ∨ includes href ("&page=" +:+ digits) = true)
  ∧ 0 ≤ PageParam.parseInt10 digits.
Proof.
  induction href as [|c rest IH]; [done|].
  rewrite matchQuery_cons.
  remember (PageParam.takeDigits (PageParam.dropChars 5 rest)) as found eqn:Hfound.
  destruct (isQueryMark c && startsWith rest "page=" && negb (isEmpty found))
    eqn:Hhere.
  - intros Heq. injection Heq as <-.
    apply andb_prop in Hhere as [Hhere Hne]. apply andb_prop in Hhere as [Hc Hp].
    split.
    { intros Hnil. rewrite Hnil in Hne. discriminate Hne. }
    split; [rewrite Hfound; apply takeDigits_digits|].
    split; [|apply parseInt10_fold_nonneg; lia].
    assert (Hrest : startsWith rest ("page=" +:+ found) = true).
    { apply startsWith_append; [done|]. rewrite Hfound. apply startsWith_takeDigits. }
    apply orb_prop in Hc as [Hc|Hc]; apply Ascii.eqb_eq in Hc; subst c;
      [left|right]; apply includes_here; simpl; exact Hrest.
  - intros Hm. destruct (IH Hm) as (H1 & H2 & H3 & H4).
    split; [done|]. split; [done|]. split; [|done].
    destruct H3 as [H3|H3]; [left|right]; by apply includes_later.
Qed.

Lemma matchQuery_sound_witness :
  "12" ≠ ""
  ∧ forallb PageParam.isDigit (list_ascii_of_string "12") = true
  ∧ (includes "/tamil-2025-movies/?sort=new&page=12#top" ("?page=" +:+ "12") = true
     ∨ includes "/tamil-2025-movies/?sort=new&page=12#top" ("&page=" +:+ "12") = true)
  ∧ 0 ≤ PageParam.parseInt10 "12".
Proof.
  apply (matchQuery_sound "/tamil-2025-movies/?sort=new&page=12#top" "12").
  reflexivity.
Defined.

(** X12: the detector reads back the page urls the orchestrator builds:
    when the base url has no [?] and no [&], the year is below 10^21 in
    absolute value and the page number [p] is a non-negative integer below
    2^53 (so that the template prints all its digits and [parseInt] is
    exact), the url of page [p] of the year has the page parameter [p]. *)
Theorem pageUrlOf_read_back (baseUrl : string) (year p : Z) :
  noQueryMark baseUrl = true →
  Z.abs year < 1000000000000000000000 →
  0 ≤ p < 9007199254740992 →
  PageParam.matchQuery (pageUrlOf baseUrl year p) = Some (ofZ p)
  ∧ PageParam.parseInt10 (ofZ p) = p
  ∧ pageParamOf (mkAnchor (Some (pageUrlOf baseUrl year p)) "next") = Some p.
Proof.
  intros Hb _ [Hp _].
  destruct (ofZ_nonneg p Hp) as (d & Hd & Hne & Hv).
  assert (Hm : PageParam.matchQuery (pageUrlOf baseUrl year p) = Some (ofZ p)).
  { unfold pageUrlOf.
    rewrite (matchQuery_skip baseUrl) by done.
    rewrite (matchQuery_skip "/tamil-") by done.
    rewrite (matchQuery_skip (ofZ year)) by apply ofZ_noQueryMark.
    change ("-movies/?page=" +:+ ofZ p) with ("-movies/" +:+ ("?page=" +:+ ofZ p)).
    rewrite (matchQuery_skip "-movies/") by done.
    change ("?page=" +:+ ofZ p) with (String "?" ("page=" +:+ ofZ p)).
    rewrite matchQuery_cons.
    change (PageParam.dropChars 5 ("page=" +:+ ofZ p)) with (ofZ p).
    rewrite Hd. destruct (string_of_uint_digits d) as [-> _].
    assert (Hsw : ∀ t, startsWith ("page=" +:+ t) "page=" = true)
      by (intros t; apply startsWith_empty).
    rewrite Hsw. destruct d; done. }
  assert (Hv' : PageParam.parseInt10 (ofZ p) = p).
  { unfold PageParam.parseInt10. by rewrite Hd, string_of_uint_value. }
  split; [done|]. split; [done|].
  unfold pageParamOf. cbn [a_href]. rewrite Hm, Hv'.
  destruct (pageUrlOf baseUrl year p) eqn:Hu; [|done].
  rewrite <- Hu in Hm. rewrite Hu in Hm. discriminate Hm.
Qed.

Lemma pageUrlOf_read_back_witness :
  PageParam.matchQuery (pageUrlOf "https://example.com" 2025 37) = Some (ofZ 37)
  ∧ PageParam.parseInt10 (ofZ 37) = 37
  ∧ pageParamOf (mkAnchor (Some (pageUrlOf "https://example.com" 2025 37)) "next")
    = Some 37.
Proof.
  apply (pageUrlOf_read_back "https://example.com" 2025 37); [reflexivity|lia|lia].
Defined.

(** ** [fetchPage] *)

(** X13: [fetchPage(url).catch(() => null)] gives a document exactly when
    the request succeeds with a success status and a body of at least 200
    characters, and the document is that body; in every other case it gives
    [null]. *)
Theorem fetchPageOrNull_usable_iff (network : string → option Response)
    (url html : string) :
  fetchPageOrNull network url = Some html
  ↔ ∃ response,
      network url = Some response ∧ ok response = true
      ∧ body response = html ∧ (200 ≤ String.length html)%nat.
Proof.
  split; [apply fetchPageOrNull_usable|].
  intros (response & Hn & Hok & Hb & Hlen).
  unfold fetchPageOrNull, fetchPage. rewrite Hn, Hok, Hb. simpl.
  destruct html as [|c html]; [simpl in Hlen; lia|]. cbn [isEmpty orb].
  destruct (String.length (String c html) <? 200)%nat eqn:Hlt; [|done].
  apply Nat.ltb_lt in Hlt. lia.
Qed.

(** ** [Promise.all] and the batch loop *)

(** Whatever the order in which the promises settle,
    [Promise.all] gives the values in the order of the promises when all
    are fulfilled, and throws when one of them rejects. *)
Lemma promiseAll_input_order {A : Type} (pick : nat → nat) :
  (∀ values : list A, promiseAll pick (map Some values) = Some values)
  ∧ (∀ promises : list (option A), None ∈ promises → promiseAll pick promises = None)
  ∧ (∀ (promises : list (option A)) values,
       promiseAll pick promises = Some values → promises = map Some values).
Proof.
  split; [|split].
  - intros values. rewrite promiseAll_by_index.
    apply mapM_Some_2. induction values as [|v values IH]; simpl; by constructor.
  - intros promises Hin. rewrite promiseAll_by_index.
    apply mapM_None. apply Exists_exists. by exists None.
  - intros promises values. rewrite promiseAll_by_index. intros Hm%mapM_Some_1.
    induction Hm as [|o v promises values Ho _ IH]; simpl; [done|].
    simpl in Ho. by rewrite Ho, IH.
Qed.

(** X14: when the base url has an origin, the batch loop, with at least
    one turn of fuel for every ten pages left, requests every planned page
    from index [i] on once, in the planned order, and appends the links of
    these pages in that order; more fuel changes nothing. *)
Theorem batchLoop_fetches_each_page_once {P : Platform}
    (network : string → option Response) (sched : Scheduler)
    (baseUrl origin query : string) (year : Z) (pageUrls : list string)
    (fuel i : nat) (allLinks : list LinkResult) :
  url_origin baseUrl = Some origin →
  (length pageUrls - i ≤ fuel * BATCH_SIZE)%nat →
  batchLoop network sched fuel baseUrl query year pageUrls i allLinks
  = (Some (allLinks
           ++ concat (map (plannedPageLinks network baseUrl origin query)
                          (drop i pageUrls))),
     map EvFetch (drop i pageUrls)).
Proof. intros Ho Hfuel. by apply batchLoop_planned. Qed.

Lemma batchLoop_fetches_each_page_once_witness :
  @batchLoop Fixture.platform Fixture.network Fixture.lifo 3 Fixture.site
     "dhandoraa" 2025
     (map (pageUrlOf Fixture.site 2025) [2; 3; 4; 5; 6; 7; 8; 9; 10; 11; 12; 13]) 0 []
  = (Some ([] ++ concat
             (map (@plannedPageLinks Fixture.platform Fixture.network Fixture.site
                     "https://example.com" "dhandoraa")
                  (drop 0 (map (pageUrlOf Fixture.site 2025)
                               [2; 3; 4; 5; 6; 7; 8; 9; 10; 11; 12; 13])))),
     map EvFetch (drop 0 (map (pageUrlOf Fixture.site 2025)
                              [2; 3; 4; 5; 6; 7; 8; 9; 10; 11; 12; 13]))).
Proof.
  apply (@batchLoop_fetches_each_page_once Fixture.platform Fixture.network
           Fixture.lifo Fixture.site "https://example.com" "dhandoraa" 2025
           (map (pageUrlOf Fixture.site 2025) [2; 3; 4; 5; 6; 7; 8; 9; 10; 11; 12; 13])
           3 0 []).
  - reflexivity.
  - vm_compute. lia.
Defined.

(** ** The whole search *)

Section SearchFacts.
Context {P : Platform}.
Variable network : string → option Response.

Lemma scanYear_formula sched baseUrl origin query allLinks year :
  url_origin baseUrl = Some origin →
  scanYear network sched baseUrl query allLinks year
  = (Some (allLinks ++ yearLinks network baseUrl origin query year),
     yearLog network baseUrl year).
Proof.
  intros Ho. unfold yearLinks, yearLog.
  destruct (fetchPageOrNull network (page1UrlOf baseUrl year)) as [html1|] eqn:Hf.
  - by rewrite (scanYear_planned network sched baseUrl origin query allLinks year html1).
  - rewrite scanYear_skip by done. by rewrite app_nil_r.
Qed.

Lemma foldM_scanYear_formula sched baseUrl origin query years :
  url_origin baseUrl = Some origin →
  ∀ allLinks,
    foldM (scanYear network sched baseUrl query) allLinks years
    = (Some (allLinks
             ++ concat (map (yearLinks network baseUrl origin query) years)),
       concat (map (yearLog network baseUrl) years)).
Proof.
  intros Ho. induction years as [|year years IH]; intros allLinks; simpl.
  - unfold ret. by rewrite app_nil_r.
  - rewrite (scanYear_formula sched baseUrl origin) by done.
    rewrite bind_Some, IH. cbn [fst snd]. by rewrite <- app_assoc.
Qed.

Lemma foldM_scanYear_fetchCount sched baseUrl query years :
  ∀ allLinks,
    (fetchCount (foldM (scanYear network sched baseUrl query) allLinks years).2
     ≤ 50 * length years)%nat.
Proof.
  induction years as [|year years IH]; intros allLinks; simpl; [unfold fetchCount; simpl; lia|].
  pose proof (scanYear_fetchCount network sched baseUrl query allLinks year) as Hy.
  destruct (scanYear network sched baseUrl query allLinks year) as [[a|] log].
  - rewrite bind_Some. cbn [snd] in *. rewrite fetchCount_app.
    specialize (IH a). lia.
  - rewrite bind_None. cbn [snd] in *. lia.
Qed.

Lemma scanYear_first_event sched baseUrl query allLinks year :
  ∃ rest, (scanYear network sched baseUrl query allLinks year).2
          = EvFetch (page1UrlOf baseUrl year) :: rest.
Proof. unfold scanYear, emit. rewrite bind_Some. cbn [snd app]. eauto. Qed.

Lemma foldM_scanYear_first_pages sched baseUrl query years :
  ∀ allLinks result,
    (foldM (scanYear network sched baseUrl query) allLinks years).1 = Some result →
    map EvFetch (map (page1UrlOf baseUrl) years)
    `sublist_of` (foldM (scanYear network sched baseUrl query) allLinks years).2.
Proof.
  induction years as [|year years IH]; intros allLinks result; simpl.
  - intros _. constructor.
  - destruct (scanYear_first_event sched baseUrl query allLinks year) as [rest Hr].
    destruct (scanYear network sched baseUrl query allLinks year) as [[a|] log];
      [|done].
    rewrite bind_Some. cbn [fst snd] in *. intros Hres. subst log.
    simpl. apply sublist_skip.
    apply sublist_inserts_l. by apply (IH a result).
Qed.


Lemma scanYear_links sched baseUrl query allLinks year allLinks' (Q : LinkResult → Prop) :
  (∀ origin html l,
     url_origin baseUrl = Some origin →
     l ∈ pushedLinks html baseUrl (toLowerCase origin) query → Q l) →
  (scanYear network sched baseUrl query allLinks year).1 = Some allLinks' →
  Forall Q allLinks → Forall Q allLinks'.
Proof.
  intros HQ Hs Hacc.
  destruct (url_origin baseUrl) as [origin|] eqn:Ho.
  - rewrite (scanYear_formula sched baseUrl origin) in Hs by done.
    injection Hs as <-. apply Forall_app. split; [done|].
    unfold yearLinks.
    destruct (fetchPageOrNull network (page1UrlOf baseUrl year)) as [html1|];
      [|constructor].
    apply Forall_app. split.
    + apply Forall_forall. intros l Hl%uniqueLinks_elem. by eapply HQ.
    + apply Forall_concat, Forall_forall. intros links Hlinks.
      apply list_elem_of_fmap in Hlinks as (u & -> & _).
      unfold plannedPageLinks.
      destruct (fetchPageOrNull network u) as [h|]; [|constructor].
      apply Forall_forall. intros l Hl%uniqueLinks_elem. by eapply HQ.
  - unfold scanYear, emit, orThrow, extractLinks in Hs.
    rewrite bind_Some in Hs.
    destruct (fetchPageOrNull network (page1UrlOf baseUrl year)) as [html1|].
    + rewrite Ho, bind_None in Hs. done.
    + simpl in Hs. by injection Hs as <-.
Qed.

Lemma foldM_scanYear_links sched baseUrl query years (Q : LinkResult → Prop) :
  (∀ origin html l,
     url_origin baseUrl = Some origin →
     l ∈ pushedLinks html baseUrl (toLowerCase origin) query → Q l) →
  ∀ allLinks allLinks',
    (foldM (scanYear network sched baseUrl query) allLinks years).1 = Some allLinks' →
    Forall Q allLinks → Forall Q allLinks'.
Proof.
  intros HQ. induction years as [|year years IH]; intros allLinks allLinks'; simpl.
  - by intros [= <-].
  - pose proof (scanYear_links sched baseUrl query allLinks year) as Hy.
    destruct (scanYear network sched baseUrl query allLinks year) as [[a|] log];
      [|done].
    rewrite bind_Some. cbn [fst]. intros Hres Hacc.
    apply (IH a allLinks' Hres). by apply (Hy a Q).
Qed.

Lemma slice0_sublist {A} (arr : list A) (end_ : Z) : slice0 arr end_ `sublist_of` arr.
Proof. unfold slice0. apply sublist_take. Qed.

Lemma batchLoop_query_ext sched fuel baseUrl query1 query2 year pageUrls :
  (∀ html, extractLinks html baseUrl query1 = extractLinks html baseUrl query2) →
  ∀ i allLinks,
    batchLoop network sched fuel baseUrl query1 year pageUrls i allLinks
    = batchLoop network sched fuel baseUrl query2 year pageUrls i allLinks.
Proof.
  intros Hext. induction fuel as [|fuel IH]; intros i allLinks; simpl; [done|].
  destruct (i <? length pageUrls)%nat; [|done].
  rewrite !fetchBatch_by_index.
  assert (Hp : map (pageLinks network baseUrl query1) (take BATCH_SIZE (drop i pageUrls))
               = map (pageLinks network baseUrl query2)
                     (take BATCH_SIZE (drop i pageUrls))).
  { apply map_ext. intros u. unfold pageLinks.
    by destruct (fetchPageOrNull network u). }
  rewrite Hp. destruct (mapM id _) as [results|]; [|done].
  rewrite !bind_Some. by rewrite IH.
Qed.

Lemma scanYear_query_ext sched baseUrl query1 query2 allLinks year :
  (∀ html, extractLinks html baseUrl query1 = extractLinks html baseUrl query2) →
  scanYear network sched baseUrl query1 allLinks year
  = scanYear network sched baseUrl query2 allLinks year.
Proof.
  intros Hext. unfold scanYear.
  destruct (fetchPageOrNull network (page1UrlOf baseUrl year)) as [html1|]; [|done].
  rewrite Hext. f_equal.
  destruct (extractLinks html1 baseUrl query2) as [links1|]; [|done].
  unfold orThrow. rewrite !bind_Some.
  destruct (1 <? _); [|done].
  by rewrite (batchLoop_query_ext sched _ baseUrl query1 query2).
Qed.

Lemma foldM_scanYear_query_ext sched baseUrl query1 query2 years :
  (∀ html, extractLinks html baseUrl query1 = extractLinks html baseUrl query2) →
  ∀ allLinks,
    foldM (scanYear network sched baseUrl query1) allLinks years
    = foldM (scanYear network sched baseUrl query2) allLinks years.
Proof.
  intros Hext. induction years as [|year years IH]; intros allLinks; simpl; [done|].
  rewrite (scanYear_query_ext sched baseUrl query1 query2) by done.
  destruct (scanYear network sched baseUrl query2 allLinks year) as [[a|] log];
    [|done].
  rewrite !bind_Some. by rewrite IH.
Qed.

Lemma searchMovieLinks_unfold sched currentYear params :
  searchMovieLinks network sched currentYear params
  = bind (foldM (scanYear network sched (baseUrl params) (trim (query params))) []
                (yearsToScan currentYear))
         (fun allLinks =>
            ret (slice0 (uniqueLinks allLinks) (default 10 (maxResults params)))).
Proof. reflexivity. Qed.

End SearchFacts.

(** X15: for a base url with an origin, [searchMovieLinks] returns the
    first [maxResults] of the deduplicated links of all the planned years,
    year after year in the order of the planner and, within a year, page
    after page; its events are those of the years in the same order. *)
Theorem searchMovieLinks_result {P : Platform} (network : string → option Response)
    (sched : Scheduler) (currentYear : Z) (params : SearchParams) (origin : string) :
  url_origin (baseUrl params) = Some origin →
  searchMovieLinks network sched currentYear params
  = (Some (slice0
             (uniqueLinks
                (concat (map (yearLinks network (baseUrl params) origin
                                (trim (query params)))
                             (yearsToScan currentYear))))
             (default 10 (maxResults params))),
     concat (map (yearLog network (baseUrl params)) (yearsToScan currentYear))).
Proof.
  intros Ho. rewrite searchMovieLinks_unfold.
  rewrite (foldM_scanYear_formula network sched (baseUrl params) origin) by done.
  rewrite bind_Some. cbn [fst snd ret]. by rewrite app_nil_r.
Qed.

Lemma searchMovieLinks_result_witness :
  @searchMovieLinks Fixture.platform Fixture.network Fixture.lifo 2025
     (mkParams Fixture.site " dhandoraa " (Some 2))
  = (Some (slice0
             (uniqueLinks
                (concat (map (@yearLinks Fixture.platform Fixture.network
                                (baseUrl (mkParams Fixture.site " dhandoraa " (Some 2)))
                                "https://example.com"
                                (trim (query (mkParams Fixture.site " dhandoraa " (Some 2)))))
                             (yearsToScan 2025))))
             (default 10 (maxResults (mkParams Fixture.site " dhandoraa " (Some 2))))),
     concat (map (@yearLog Fixture.platform Fixture.network
                    (baseUrl (mkParams Fixture.site " dhandoraa " (Some 2))))
                 (yearsToScan 2025))).
Proof.
  apply (@searchMovieLinks_result Fixture.platform Fixture.network Fixture.lifo 2025
           (mkParams Fixture.site " dhandoraa " (Some 2)) "https://example.com").
  reflexivity.
Defined.

(** X16: one call of [searchMovieLinks] issues at most 400 GET requests,
    50 for each of the 8 years, whatever the site answers and also when the
    call throws. *)
Theorem searchMovieLinks_at_most_400_fetches {P : Platform}
    (network : string → option Response) (sched : Scheduler) (currentYear : Z)
    (params : SearchParams) :
  (fetchCount (searchMovieLinks network sched currentYear params).2 ≤ 400)%nat.
Proof.
  rewrite searchMovieLinks_unfold.
  pose proof (foldM_scanYear_fetchCount network sched (baseUrl params)
                (trim (query params)) (yearsToScan currentYear) []) as Hf.
  replace (length (yearsToScan currentYear)) with 8%nat in Hf by reflexivity.
  destruct (foldM _ _ _) as [[a|] log].
  - rewrite bind_Some. cbn [snd ret] in *. rewrite app_nil_r. lia.
  - rewrite bind_None. cbn [snd] in *. lia.
Qed.



(** X18: every link [searchMovieLinks] returns has passed the filters
    and the match of [extractLinks] on some page: its lowercased url begins
    with the lowercased origin of the base url, does not contain
    ["-movies/"], contains ["-movie/"] or ["-series/"], and its title or its
    url contains every word of the trimmed query; no two of the links have
    the same url. *)
Theorem searchMovieLinks_links_filtered {P : Platform}
    (network : string → option Response) (sched : Scheduler) (currentYear : Z)
    (params : SearchParams) (result : list LinkResult) :
  (searchMovieLinks network sched currentYear params).1 = Some result →
  NoDup (map url result)
  ∧ ∀ l, l ∈ result →
      ∃ origin,
        url_origin (baseUrl params) = Some origin
        ∧ startsWith (toLowerCase (url l)) (toLowerCase origin) = true
        ∧ includes (toLowerCase (url l)) "-movies/" = false
        ∧ (includes (toLowerCase (url l)) "-movie/" = true
           ∨ includes (toLowerCase (url l)) "-series/" = true)
        ∧ matchesQuery (queryWordsOf (trim (query params))) l = true.
Proof.
  rewrite searchMovieLinks_unfold.
  destruct (foldM _ _ _) as [[allLinks|] log] eqn:Hf; [|done].
  rewrite bind_Some. cbn [fst ret]. intros Hr. injection Hr as <-.
  split.
  - eapply sublist_NoDup; [|apply fmap_sublist, slice0_sublist].
    rewrite uniqueLinks_keepFresh. apply keepFresh_NoDup.
  - intros l Hl.
    assert (Hin : l ∈ allLinks).
    { apply uniqueLinks_elem. eapply elem_of_sublist; [done|apply slice0_sublist]. }
    pose proof (foldM_scanYear_links network sched (baseUrl params)
                  (trim (query params)) (yearsToScan currentYear)
                  (fun l => ∃ origin,
                     url_origin (baseUrl params) = Some origin
                     ∧ startsWith (toLowerCase (url l)) (toLowerCase origin) = true
                     ∧ includes (toLowerCase (url l)) "-movies/" = false
                     ∧ (includes (toLowerCase (url l)) "-movie/" = true
                        ∨ includes (toLowerCase (url l)) "-series/" = true)
                     ∧ matchesQuery (queryWordsOf (trim (query params))) l = true))
      as Hinv.
    eapply Forall_forall in Hinv; [exact Hinv| | |constructor|exact Hin].
    + intros origin html l' Ho Hl'.
      apply pushedLinks_elem in Hl' as (element & _ & Hc & Hm).
      apply anchorCandidate_passes in Hc as (href & Hp).
      exists origin. tauto.
    + by rewrite Hf.
Qed.

Lemma searchMovieLinks_links_filtered_witness :
  NoDup (map url [ mkLink "dhandoraa (early release)"
                          "https://example.com/dhandoraa-2025-tamil-movie/";
                   mkLink "Dhandoraa HD"
                          "https://example.com.evil.net/dhandoraa-2025-tamil-movie/" ])
  ∧ ∀ l, l ∈ [ mkLink "dhandoraa (early release)"
                      "https://example.com/dhandoraa-2025-tamil-movie/";
               mkLink "Dhandoraa HD"
                      "https://example.com.evil.net/dhandoraa-2025-tamil-movie/" ] →
      ∃ origin,
        @url_origin Fixture.platform
           (baseUrl (mkParams Fixture.site " dhandoraa " (Some 2))) = Some origin
        ∧ startsWith (toLowerCase (url l)) (toLowerCase origin) = true
        ∧ includes (toLowerCase (url l)) "-movies/" = false
        ∧ (includes (toLowerCase (url l)) "-movie/" = true
           ∨ includes (toLowerCase (url l)) "-series/" = true)
        ∧ matchesQuery
            (queryWordsOf (trim (query (mkParams Fixture.site " dhandoraa " (Some 2)))))
            l = true.
Proof.
  apply (@searchMovieLinks_links_filtered Fixture.platform Fixture.network
           Fixture.lifo 2025 (mkParams Fixture.site " dhandoraa " (Some 2))).
  vm_compute. reflexivity.
Defined.

(** X19: a smaller [maxResults] gives a prefix: with the same site, for
    0 <= m <= m', the call with [maxResults] m returns the first m links of
    what the call with m' returns, and issues the same requests. *)
Theorem searchMovieLinks_fewer_results_prefix {P : Platform}
    (network : string → option Response) (sched : Scheduler) (currentYear : Z)
    (base q : string) (m m' : Z) (result' : list LinkResult) :
  0 ≤ m ≤ m' →
  (searchMovieLinks network sched currentYear (mkParams base q (Some m'))).1
  = Some result' →
  (searchMovieLinks network sched currentYear (mkParams base q (Some m))).1
  = Some (take (Z.to_nat m) result')
  ∧ (searchMovieLinks network sched currentYear (mkParams base q (Some m))).2
    = (searchMovieLinks network sched currentYear (mkParams base q (Some m'))).2.
Proof.
  intros Hm. rewrite !searchMovieLinks_unfold. cbn [baseUrl query maxResults].
  change (default 10 (Some m)) with m. change (default 10 (Some m')) with m'.
  destruct (foldM _ _ _) as [[allLinks|] log]; [|done].
  rewrite !bind_Some. cbn [fst snd ret]. intros Hr. injection Hr as <-.
  split; [|done]. f_equal. unfold slice0.
  destruct (m <? 0) eqn:H1; [apply Z.ltb_lt in H1; lia|].
  destruct (m' <? 0) eqn:H2; [apply Z.ltb_lt in H2; lia|].
  rewrite take_take. f_equal. lia.
Qed.

Lemma searchMovieLinks_fewer_results_prefix_witness :
  (@searchMovieLinks Fixture.platform Fixture.network Fixture.lifo 2025
     (mkParams Fixture.site "dhandoraa" (Some 1))).1
  = Some (take (Z.to_nat 1)
            [ mkLink "dhandoraa (early release)"
                     "https://example.com/dhandoraa-2025-tamil-movie/";
              mkLink "Dhandoraa HD"
                     "https://example.com.evil.net/dhandoraa-2025-tamil-movie/";
              mkLink "Dhandoraa Returns"
                     "https://example.com/dhandoraa-returns-tamil-web-series/" ])
  ∧ (@searchMovieLinks Fixture.platform Fixture.network Fixture.lifo 2025
       (mkParams Fixture.site "dhandoraa" (Some 1))).2
    = (@searchMovieLinks Fixture.platform Fixture.network Fixture.lifo 2025
         (mkParams Fixture.site "dhandoraa" (Some 50))).2.
Proof.
  apply (@searchMovieLinks_fewer_results_prefix Fixture.platform Fixture.network
           Fixture.lifo 2025 Fixture.site "dhandoraa" 1 50).
  - lia.
  - vm_compute. reflexivity.
Defined.

(** X20: there is no early exit: when [searchMovieLinks] returns, the
    first listing page of every planned year has been requested, in the
    order of the planner. *)
Theorem searchMovieLinks_scans_every_year {P : Platform}
    (network : string → option Response) (sched : Scheduler) (currentYear : Z)
    (params : SearchParams) (result : list LinkResult) :
  (searchMovieLinks network sched currentYear params).1 = Some result →
  map EvFetch (map (page1UrlOf (baseUrl params)) (yearsToScan currentYear))
  `sublist_of` (searchMovieLinks network sched currentYear params).2.
Proof.
  rewrite searchMovieLinks_unfold.
  pose proof (foldM_scanYear_first_pages network sched (baseUrl params)
                (trim (query params)) (yearsToScan currentYear) []) as Hf.
  destruct (foldM _ _ _) as [[allLinks|] log]; [|done].
  rewrite bind_Some. cbn [fst snd ret] in *. intros _. rewrite app_nil_r.
  by apply (Hf allLinks).
Qed.

Lemma searchMovieLinks_scans_every_year_witness :
  map EvFetch (map (page1UrlOf (baseUrl (mkParams Fixture.site "dhandoraa" (Some 2))))
                   (yearsToScan 2025))
  `sublist_of` (@searchMovieLinks Fixture.platform Fixture.network Fixture.lifo 2025
                  (mkParams Fixture.site "dhandoraa" (Some 2))).2.
Proof.
  apply (@searchMovieLinks_scans_every_year Fixture.platform Fixture.network
           Fixture.lifo 2025 (mkParams Fixture.site "dhandoraa" (Some 2))
           [ mkLink "dhandoraa (early release)"
                    "https://example.com/dhandoraa-2025-tamil-movie/";
             mkLink "Dhandoraa HD"
                    "https://example.com.evil.net/dhandoraa-2025-tamil-movie/" ]).
  vm_compute. reflexivity.
Defined.

(** X21: the planner never gives a year twice and goes from the newest
    year to the oldest. *)
Theorem yearsToScan_descending (currentYear : Z) :
  NoDup (yearsToScan currentYear)
  ∧ ∀ i j a b, (i < j)%nat →
      yearsToScan currentYear !! i = Some a →
      yearsToScan currentYear !! j = Some b → b < a.
Proof.
  assert (Hsorted : ∀ i j a b, (i < j)%nat →
            yearsToScan currentYear !! i = Some a →
            yearsToScan currentYear !! j = Some b → b < a).
  { intros i j a b Hij Hi Hj. rewrite yearsToScan_unfold in Hi, Hj.
    assert (Hmap : map (fun k => currentYear - Z.of_nat k) (seq 0 YEAR_RANGE)
                   = (fun k => currentYear - Z.of_nat k) <$> seq 0 YEAR_RANGE)
      by reflexivity.
    rewrite Hmap in Hi, Hj. clear Hmap.
    assert (Hcons : ∀ (x : Z) l n, (x :: l) !! S n = l !! n) by reflexivity.
    destruct i as [|i].
    - destruct j as [|j]; [lia|].
      rewrite Hcons, list_lookup_fmap in Hj.
      injection Hi as <-.
      destruct (seq 0 YEAR_RANGE !! j) as [k|]; [|done].
      simpl in Hj. injection Hj as <-. lia.
    - destruct j as [|j]; [lia|].
      rewrite Hcons, list_lookup_fmap in Hi, Hj.
      destruct (seq 0 YEAR_RANGE !! i) as [k|] eqn:Hk; [|done].
      destruct (seq 0 YEAR_RANGE !! j) as [k'|] eqn:Hk'; [|done].
      simpl in Hi, Hj. injection Hi as <-. injection Hj as <-.
      apply lookup_seq in Hk as [-> _]. apply lookup_seq in Hk' as [-> _]. lia. }
  split; [|exact Hsorted].
  apply NoDup_alt. intros i j a Hi Hj.
  destruct (Nat.lt_trichotomy i j) as [Hlt|[Heq|Hgt]]; [|done|].
  - pose proof (Hsorted i j a a Hlt Hi Hj). lia.
  - pose proof (Hsorted j i a a Hgt Hj Hi). lia.
Qed.

(** X22: for a url found on several pages, the link returned is the one
    of the first page in scan order (year after year as planned, page after
    page, anchor after anchor), title included. *)
Theorem searchMovieLinks_first_page_wins {P : Platform}
    (network : string → option Response) (sched : Scheduler) (currentYear : Z)
    (params : SearchParams) (origin : string) (result : list LinkResult)
    (l : LinkResult) :
  url_origin (baseUrl params) = Some origin →
  (searchMovieLinks network sched currentYear params).1 = Some result →
  l ∈ result →
  find (hasUrl (url l))
       (concat (map (yearLinks network (baseUrl params) origin (trim (query params)))
                    (yearsToScan currentYear)))
  = Some l.
Proof.
  intros Ho. rewrite searchMovieLinks_unfold.
  rewrite (foldM_scanYear_formula network sched (baseUrl params) origin) by done.
  rewrite bind_Some. cbn [fst ret]. rewrite app_nil_l.
  intros Hr Hl. injection Hr as <-.
  set (all := concat _) in *.
  assert (Hin : l ∈ uniqueLinks all)
    by (eapply elem_of_sublist; [done|apply slice0_sublist]).
  rewrite uniqueLinks_keepFresh in Hin.
  rewrite <- (keepFresh_find ∅ all) by apply not_elem_of_empty.
  apply find_hasUrl_NoDup; [apply keepFresh_NoDup|done].
Qed.

Lemma searchMovieLinks_first_page_wins_witness :
  find (hasUrl (url (mkLink "dhandoraa (early release)"
                            "https://example.com/dhandoraa-2025-tamil-movie/")))
       (concat (map (@yearLinks Fixture.platform Fixture.network
                       (baseUrl (mkParams Fixture.site "dhandoraa" (Some 2)))
                       "https://example.com"
                       (trim (query (mkParams Fixture.site "dhandoraa" (Some 2)))))
                    (yearsToScan 2025)))
  = Some (mkLink "dhandoraa (early release)"
                 "https://example.com/dhandoraa-2025-tamil-movie/").
Proof.
  apply (@searchMovieLinks_first_page_wins Fixture.platform Fixture.network
           Fixture.lifo 2025 (mkParams Fixture.site "dhandoraa" (Some 2))
           "https://example.com"
           [ mkLink "dhandoraa (early release)"
                    "https://example.com/dhandoraa-2025-tamil-movie/";
             mkLink "Dhandoraa HD"
                    "https://example.com.evil.net/dhandoraa-2025-tamil-movie/" ]).
  - reflexivity.
  - vm_compute. reflexivity.
  - apply elem_of_cons. by left.
Defined.

(** X23: the search does not see the case of the query nor white space
    around it: the lowercased query and the trimmed query give the result
    and the requests of the query itself. *)
Theorem searchMovieLinks_query_case_and_padding {P : Platform}
    (network : string → option Response) (sched : Scheduler) (currentYear : Z)
    (base q : string) (m : option Z) :
  searchMovieLinks network sched currentYear (mkParams base (toLowerCase q) m)
  = searchMovieLinks network sched currentYear (mkParams base q m)
  ∧ searchMovieLinks network sched currentYear (mkParams base (trim q) m)
    = searchMovieLinks network sched currentYear (mkParams base q m).
Proof.
  rewrite !searchMovieLinks_unfold. cbn [baseUrl query maxResults].
  split.
  - rewrite (foldM_scanYear_query_ext network sched base
               (trim (toLowerCase q)) (trim q)); [done|].
    intros html. apply extractLinks_words.
    by rewrite !queryWordsOf_trim, queryWordsOf_lower.
  - by rewrite trim_idem.
Qed.

(** ** The search by the site's search pages *)

Section SearchPagesFacts.
Context {P : Platform}.
Variable network : string → option Response.

Lemma startsWith_shorter (s p q : string) :
  startsWith s (p +:+ q) = true → startsWith s p = true.
Proof. intros H. by apply startsWith_append_inv in H as [H _]. Qed.

Lemma includes_shorter (s p q : string) :
  includes s (p +:+ q) = true → includes s p = true.
Proof.
  induction s as [|c s IH].
  - change (startsWith "" (p +:+ q) || false = true → startsWith "" p || false = true).
    rewrite !orb_false_r. apply startsWith_shorter.
  - change (startsWith (String c s) (p +:+ q) || includes s (p +:+ q) = true
            → startsWith (String c s) p || includes s p = true).
    intros [H|H]%orb_prop.
    + by rewrite (startsWith_shorter _ _ _ H).
    + rewrite (IH H). apply orb_true_r.
Qed.

Lemma looksLikeMovie_two_tests (link : LinkResult) :
  SearchPages.looksLikeMovie link
  = includes (toLowerCase (url link)) "/movie"
    || includes (toLowerCase (url link)) "/tamil".
Proof.
  unfold SearchPages.looksLikeMovie.
  destruct (includes (toLowerCase (url link)) "/movie") eqn:Hm; [done|].
  destruct (includes (toLowerCase (url link)) "/movies") eqn:Hs.
  { apply (includes_shorter _ "/movie" "s") in Hs. congruence. }
  destruct (includes (toLowerCase (url link)) "/movie-") eqn:Hd; [|done].
  apply (includes_shorter _ "/movie" "-") in Hd. congruence.
Qed.

Lemma firstUsable_spec (urls : list string) :
  ∃ tried rest,
    urls = tried ++ rest
    ∧ (SearchPages.firstUsable network urls).2 = map EvFetch tried
    ∧ match (SearchPages.firstUsable network urls).1 with
      | Some (Some html) =>
          ∃ before url,
            tried = before ++ [url]
            ∧ SearchPages.trySearchOrNull network url = Some html
            ∧ Forall (fun u => SearchPages.trySearchOrNull network u = None) before
      | Some None =>
          rest = []
          ∧ Forall (fun u => SearchPages.trySearchOrNull network u = None) tried
      | None => False
      end.
Proof.
  induction urls as [|url urls IH].
  - exists [], []. by repeat split.
  - cbn [SearchPages.firstUsable]. unfold emit. rewrite bind_Some.
    destruct (SearchPages.trySearchOrNull network url) as [html|] eqn:Hu.
    + exists [url], urls. split; [done|]. split; [done|].
      exists [], url. by repeat split.
    + destruct IH as (tried & rest & -> & Hlog & Hres).
      exists (url :: tried), rest. split; [done|].
      cbn [fst snd]. split; [by rewrite Hlog|].
      destruct (SearchPages.firstUsable network (tried ++ rest)).1 as [[html|]|];
        [| |done].
      * destruct Hres as (before & u & -> & Hok & Hbefore).
        exists (url :: before), u. split; [done|]. split; [done|].
        by constructor.
      * destruct Hres as [-> Hall]. split; [done|]. by constructor.
Qed.

Lemma List_filter_sublist {A} (f : A → bool) (l : list A) :
  List.filter f l `sublist_of` l.
Proof.
  induction l as [|x l IH]; simpl; [constructor|].
  destruct (f x); [by apply sublist_skip|by apply sublist_cons].
Qed.


End SearchPagesFacts.

Section SearchPagesRun.
Context {P : Platform}.
Variable network : string → option Response.
Variable encodeURIComponent : string → option string.

Lemma searchPages_throws (params : SearchParams) :
  encodeURIComponent (trim (query params)) = None →
  SearchPages.searchMovieLinks network encodeURIComponent params = (None, []).
Proof.
  intros He. unfold SearchPages.searchMovieLinks, SearchPages.candidates, orThrow.
  by rewrite He, bind_None.
Qed.

Lemma searchPages_unfold (params : SearchParams) (encoded : string) :
  encodeURIComponent (trim (query params)) = Some encoded →
  SearchPages.searchMovieLinks network encodeURIComponent params
  = bind (SearchPages.firstUsable network
            (SearchPages.candidateUrls (baseUrl params) encoded))
         (fun html =>
            match html with
            | None => ret []
            | Some html =>
                bind (orThrow (SearchPages.extractLinks html (baseUrl params)))
                     (fun links =>
                        ret (slice0 (List.filter SearchPages.looksLikeMovie links)
                                    (default 10 (maxResults params))))
            end).
Proof.
  intros He. unfold SearchPages.searchMovieLinks, SearchPages.candidates, orThrow.
  rewrite He, bind_Some.
  by destruct (bind (SearchPages.firstUsable network _) _).
Qed.

End SearchPagesRun.

(** X24: the search by search pages throws before any request when
    [encodeURIComponent] throws on the trimmed query; otherwise it asks the
    four candidate pages in their order and stops at the first usable one:
    the requests are a non-empty beginning of the candidates, and every
    candidate asked, but the last one when the search goes on to the
    extraction, was unusable. *)
Theorem searchPages_first_usable_candidate {P : Platform}
    (network : string → option Response)
    (encodeURIComponent : string → option string) (params : SearchParams) :
  match encodeURIComponent (trim (query params)) with
  | None =>
      SearchPages.searchMovieLinks network encodeURIComponent params = (None, [])
  | Some encoded =>
      ∃ tried rest,
        SearchPages.candidateUrls (baseUrl params) encoded = tried ++ rest
        ∧ tried ≠ []
        ∧ (SearchPages.searchMovieLinks network encodeURIComponent params).2
          = map EvFetch tried
        ∧ ((rest = []
            ∧ Forall (fun u => SearchPages.trySearchOrNull network u = None) tried
            ∧ (SearchPages.searchMovieLinks network encodeURIComponent params).1
              = Some [])
           ∨ ∃ before url html,
               tried = before ++ [url]
               ∧ SearchPages.trySearchOrNull network url = Some html
               ∧ Forall (fun u => SearchPages.trySearchOrNull network u = None) before
               ∧ (SearchPages.searchMovieLinks network encodeURIComponent params).1
                 = option_map
                     (fun links =>
                        slice0 (List.filter SearchPages.looksLikeMovie links)
                               (default 10 (maxResults params)))
                     (SearchPages.extractLinks html (baseUrl params)))
  end.
Proof.
  destruct (encodeURIComponent (trim (query params))) as [encoded|] eqn:He;
    [|by apply searchPages_throws].
  rewrite (searchPages_unfold network encodeURIComponent params encoded He).
  destruct (firstUsable_spec network
              (SearchPages.candidateUrls (baseUrl params) encoded))
    as (tried & rest & Hsplit & Hlog & Hres).
  exists tried, rest. split; [done|].
  destruct (SearchPages.firstUsable network _) as [[[html|]|] log]; cbn [fst snd] in *;
    [| |done].
  - destruct Hres as (before & url & -> & Hok & Hbefore).
    split; [by destruct before|]. rewrite bind_Some.
    destruct (SearchPages.extractLinks html (baseUrl params)) as [links|] eqn:Hx.
    + unfold orThrow. rewrite bind_Some. cbn [fst snd ret].
      rewrite !app_nil_r. split; [done|].
      right. exists before, url, html. rewrite Hx. by repeat split.
    + unfold orThrow. rewrite bind_None. cbn [fst snd].
      rewrite !app_nil_r. split; [done|].
      right. exists before, url, html. rewrite Hx. by repeat split.
  - destruct Hres as [-> Hall]. rewrite app_nil_r in Hsplit.
    split; [intros ->; discriminate Hsplit|].
    rewrite bind_Some. cbn [fst snd ret]. rewrite app_nil_r.
    split; [done|]. left. by repeat split.
Qed.



(** X26: the links the search by search pages returns: at most
    [maxResults] of them when [maxResults] is not negative, no two with the
    same url, each with a non-empty title, a lowercased url that begins with
    the lowercased origin of the base url and contains ["/movie"] or
    ["/tamil"]; the tests for ["/movies"] and ["/movie-"] of the filter add
    nothing to the test for ["/movie"]. *)
Theorem searchPages_links_filtered {P : Platform}
    (network : string → option Response)
    (encodeURIComponent : string → option string)
    (params : SearchParams) (result : list LinkResult) :
  0 ≤ default 10 (maxResults params) →
  (SearchPages.searchMovieLinks network encodeURIComponent params).1 = Some result →
  (length result ≤ Z.to_nat (default 10%Z (maxResults params)))%nat
  ∧ NoDup (map url result)
  ∧ (∀ l, SearchPages.looksLikeMovie l
          = includes (toLowerCase (url l)) "/movie"
            || includes (toLowerCase (url l)) "/tamil")
  ∧ ∀ l, l ∈ result →
      title l ≠ ""
      ∧ (includes (toLowerCase (url l)) "/movie" = true
         ∨ includes (toLowerCase (url l)) "/tamil" = true)
      ∧ ∃ origin, url_origin (baseUrl params) = Some origin
          ∧ startsWith (toLowerCase (url l)) (toLowerCase origin) = true.
Proof.
  intros Hpos Hres.
  destruct (encodeURIComponent (trim (query params))) as [encoded|] eqn:He;
    [|by rewrite (searchPages_throws network encodeURIComponent params He) in Hres].
  rewrite (searchPages_unfold network encodeURIComponent params encoded He) in Hres.
  split; [|split; [|split; [apply looksLikeMovie_two_tests|]]].
  - destruct (SearchPages.firstUsable network _) as [[[html|]|] log]; [| |done].
    + rewrite bind_Some in Hres. cbn [fst] in Hres.
      destruct (SearchPages.extractLinks html (baseUrl params)) as [links|]; [|done].
      unfold orThrow in Hres. rewrite bind_Some in Hres. cbn [fst ret] in Hres.
      injection Hres as <-. by apply slice0_length.
    + rewrite bind_Some in Hres. cbn [fst ret] in Hres. injection Hres as <-.
      simpl. lia.
  - destruct (SearchPages.firstUsable network _) as [[[html|]|] log]; [| |done].
    + rewrite bind_Some in Hres. cbn [fst] in Hres.
      unfold SearchPages.extractLinks in Hres.
      destruct (url_origin (baseUrl params)) as [origin|]; [|done].
      unfold orThrow in Hres. rewrite bind_Some in Hres. cbn [fst ret] in Hres.
      injection Hres as <-.
      eapply sublist_NoDup; [|apply fmap_sublist; etransitivity;
                               [apply slice0_sublist|apply List_filter_sublist]].
      rewrite uniqueLinks_keepFresh. apply keepFresh_NoDup.
    + rewrite bind_Some in Hres. cbn [fst ret] in Hres. injection Hres as <-.
      constructor.
  - intros l Hl.
    destruct (SearchPages.firstUsable network _) as [[[html|]|] log]; [| |done].
    + rewrite bind_Some in Hres. cbn [fst] in Hres.
      unfold SearchPages.extractLinks in Hres.
      destruct (url_origin (baseUrl params)) as [origin|]; [|done].
      unfold orThrow in Hres. rewrite bind_Some in Hres. cbn [fst ret] in Hres.
      injection Hres as <-.
      assert (Hf : l ∈ List.filter SearchPages.looksLikeMovie
                     (uniqueLinks (omap (SearchPages.anchorLink (baseUrl params)
                                           (toLowerCase origin))
                                        (select_anchors html))))
        by (eapply elem_of_sublist; [done|apply slice0_sublist]).
      apply list_elem_of_In, filter_In in Hf as [Hin Hlook].
      apply list_elem_of_In, uniqueLinks_elem, list_elem_of_omap in Hin
        as (element & _ & Ha).
      rewrite looksLikeMovie_two_tests in Hlook. apply orb_prop in Hlook.
      unfold SearchPages.anchorLink in Ha.
      destruct (a_href element) as [href|]; [|done].
      destruct (isEmpty href); [done|].
      destruct (normalizeUrl (baseUrl params) href) as [u|]; [|done].
      destruct (isEmpty u); [done|].
      destruct (startsWith (toLowerCase u) (toLowerCase origin)) eqn:Ho; [|done].
      simpl in Ha.
      destruct (isEmpty (trim (a_text element))) eqn:Ht; [done|].
      injection Ha as <-. simpl in *.
      split; [intros Hnil; by rewrite Hnil in Ht|].
      split; [done|]. by exists origin.
    + rewrite bind_Some in Hres. cbn [fst ret] in Hres. injection Hres as <-.
      by apply elem_of_nil in Hl.
Qed.

Lemma searchPages_links_filtered_witness :
  (length [ mkLink "Tamil 2025 Movies" "https://example.com/tamil-2025-movies/" ]
   ≤ Z.to_nat (default 10%Z (maxResults (mkParams Fixture.site "x" (Some 2%Z)))))%nat
  ∧ NoDup (map url [ mkLink "Tamil 2025 Movies"
                            "https://example.com/tamil-2025-movies/" ])
  ∧ (∀ l, SearchPages.looksLikeMovie l
          = includes (toLowerCase (url l)) "/movie"
            || includes (toLowerCase (url l)) "/tamil")
  ∧ ∀ l, l ∈ [ mkLink "Tamil 2025 Movies" "https://example.com/tamil-2025-movies/" ] →
      title l ≠ ""
      ∧ (includes (toLowerCase (url l)) "/movie" = true
         ∨ includes (toLowerCase (url l)) "/tamil" = true)
      ∧ ∃ origin,
          @url_origin Fixture.platform (baseUrl (mkParams Fixture.site "x" (Some 2)))
          = Some origin
          ∧ startsWith (toLowerCase (url l)) (toLowerCase origin) = true.
Proof.
  apply (@searchPages_links_filtered Fixture.platform
           (fun url => if String.eqb url "https://example.com/?s=x"
                       then Some (mkResponse true Fixture.page2025) else None)
           (fun s => Some s) (mkParams Fixture.site "x" (Some 2))).
  - simpl. lia.
  - vm_compute. reflexivity.
Defined.

(** ** The debugging script *)

Section DebugFacts.
Context {P : Platform}.
Variable network : string → option Response.
Variable sched : Scheduler.

Lemma pageTask_fulfilled baseUrl query url :
  is_Some (DebugSearch.pageTask network baseUrl query url).
Proof.
  unfold DebugSearch.pageTask.
  destruct (DebugSearch.fetchPage network url) as [[html|]|]; [|done|done].
  destruct (isEmpty html); [done|].
  by destruct (extractLinks html baseUrl query).
Qed.

Lemma debug_batchLoop baseUrl query urls : ∀ fuel i,
  (length urls - i ≤ fuel * DebugSearch.BATCH_SIZE)%nat →
  DebugSearch.batchLoop network sched fuel baseUrl query urls i
  = (Some tt, map EvFetch (drop i urls)).
Proof.
  induction fuel as [|fuel IH]; intros i Hfuel.
  - simpl. rewrite drop_ge by (simpl in Hfuel; lia). done.
  - simpl. destruct (i <? length urls)%nat eqn:Hi.
    + rewrite promiseAll_by_index.
      destruct (mapM id (map (DebugSearch.pageTask network baseUrl query)
                             (take DebugSearch.BATCH_SIZE (drop i urls))))
        as [results|] eqn:Hm.
      * rewrite bind_Some, IH by (unfold DebugSearch.BATCH_SIZE in *; lia).
        cbn [fst snd]. f_equal. rewrite <- map_app. f_equal.
        rewrite <- drop_drop. apply take_drop.
      * exfalso. apply mapM_None in Hm. apply Exists_exists in Hm as (o & Ho & Hn).
        apply list_elem_of_fmap in Ho as (u & -> & _).
        simpl in Hn. destruct (pageTask_fulfilled baseUrl query u) as [v Hv].
        congruence.
    + apply Nat.ltb_ge in Hi. rewrite drop_ge by done. done.
Qed.

End DebugFacts.

(** X27: [runDebug] never throws and requests exactly the 8 candidate
    urls, the 4 pages of the next year and then the 4 pages of the current
    year, in that order, whatever the site answers and whatever the order
    in which the fetches of a batch complete. *)
Theorem runDebug_fetches_eight_pages {P : Platform}
    (network : string → option Response) (sched : Scheduler) (currentYear : Z) :
  DebugSearch.runDebug network sched currentYear
  = (Some tt,
     map EvFetch (DebugSearch.candidateUrls "https://moviesda15.com" currentYear))
  ∧ fetchCount (DebugSearch.runDebug network sched currentYear).2 = 8%nat
  ∧ DebugSearch.candidateUrls "https://moviesda15.com" currentYear
    = map (fun '(year, p) =>
             if p =? 1 then page1UrlOf "https://moviesda15.com" year
             else pageUrlOf "https://moviesda15.com" year p)
          [ (currentYear + 1, 1); (currentYear + 1, 2); (currentYear + 1, 3);
            (currentYear + 1, 4); (currentYear, 1); (currentYear, 2);
            (currentYear, 3); (currentYear, 4) ].
Proof.
  assert (Hr : DebugSearch.runDebug network sched currentYear
    = (Some tt,
       map EvFetch (DebugSearch.candidateUrls "https://moviesda15.com" currentYear))).
  { unfold DebugSearch.runDebug. rewrite debug_batchLoop.
    - by rewrite drop_0.
    - unfold DebugSearch.BATCH_SIZE. lia. }
  split; [exact Hr|]. split; [|reflexivity].
  rewrite Hr. cbn [snd]. by rewrite fetchCount_fetches.
Qed.
